(** * PCTWrap: the per-problem bookkeeping object [PCTProblem]

    A shallow embedding of [src/PCTWrap/problems.py]: the constraint
    extraction done at construction ([get_constraints]), the recording
    evaluation [obj], [clear_memory] and the violation measure
    [ctr_violations], followed by the properties of the specification that
    concern them.  The pure parts of [src/PCTWrap/wrapper.py] follow: the
    reading of the SIF decoder output ([get_sif_params]), the loop of
    [import_problems] over a provider given as a record of functions, and
    the text that [save_problems] writes.

    Numbers.  The code computes with NumPy [float64] values.  They are
    modelled by the type [float] below: NaN, the two infinities, and the
    finite values as rationals.  The special values behave as in IEEE 754
    (NaN is unordered and absorbing, inf - inf, inf / inf and 0 * inf are
    NaN).  Arithmetic on finite values is exact: rounding, overflow of the
    finite range and the sign of zero are not modelled, and a decimal literal
    of the source ([1e20], [1e-2], [1e3]) is read as the rational it denotes.

    Exceptions.  NumPy raises when shapes do not fit: [IndexError] for a
    boolean mask whose length differs from that of the indexed array,
    [ValueError] for an assignment or an elementwise operation on arrays of
    different lengths.  These are the exceptions the module can raise by
    itself and they are modelled by the type [result].  The raw problem (the
    PyCUTEst object) is modelled by total functions: an exception raised
    inside the provider is outside the model. *)

From Stdlib Require Import String Ascii.
From Stdlib Require Import List Bool Arith ZArith QArith Qabs Lia Lqa.
From Stdlib Require Import Sorted Permutation.
Import ListNotations.

(** ** Floating-point values *)

Inductive float : Type :=
| NaN
| NInf
| Fin (q : Q)
| PInf.

Definition isnan (a : float) : bool :=
  match a with NaN => true | _ => false end.

Definition isfinite (a : float) : bool :=
  match a with Fin _ => true | _ => false end.

(** [a <= b] on floats; false as soon as one side is NaN. *)
Definition fle (a b : float) : bool :=
  match a, b with
  | NaN, _ | _, NaN => false
  | NInf, _ => true
  | _, PInf => true
  | Fin x, Fin y => Qle_bool x y
  | _, _ => false
  end.

(** [a < b], [a > b], [a >= b] and [a == b]. *)
Definition flt (a b : float) : bool :=
  match a, b with
  | NaN, _ | _, NaN => false
  | _, _ => negb (fle b a)
  end.

Definition fgt (a b : float) : bool := flt b a.
Definition fge (a b : float) : bool := fle b a.
Definition feq (a b : float) : bool := fle a b && fle b a.

Definition fneg (a : float) : float :=
  match a with
  | NaN => NaN
  | NInf => PInf
  | Fin x => Fin (- x)
  | PInf => NInf
  end.

(** [np.abs]. *)
Definition fabs (a : float) : float :=
  match a with
  | NaN => NaN
  | NInf | PInf => PInf
  | Fin x => Fin (Qabs x)
  end.

Definition fadd (a b : float) : float :=
  match a, b with
  | NaN, _ | _, NaN => NaN
  | PInf, NInf | NInf, PInf => NaN
  | PInf, _ | _, PInf => PInf
  | NInf, _ | _, NInf => NInf
  | Fin x, Fin y => Fin (x + y)
  end.

(** The infinity with the sign of [s * q] for [s] = +inf ([pos]) or -inf,
    NaN when [q] is zero. *)
Definition inf_times (pos : bool) (q : Q) : float :=
  if Qeq_bool q 0 then NaN
  else if Bool.eqb pos (Qle_bool 0 q) then PInf else NInf.

Definition fmul (a b : float) : float :=
  match a, b with
  | NaN, _ | _, NaN => NaN
  | PInf, PInf | NInf, NInf => PInf
  | PInf, NInf | NInf, PInf => NInf
  | PInf, Fin y | Fin y, PInf => inf_times true y
  | NInf, Fin y | Fin y, NInf => inf_times false y
  | Fin x, Fin y => Fin (x * y)
  end.

(** Division of NumPy scalars: no exception, a zero divisor gives an
    infinity or NaN. *)
Definition fdiv (a b : float) : float :=
  match a, b with
  | NaN, _ | _, NaN => NaN
  | Fin _, (PInf | NInf) => Fin 0
  | (PInf | NInf), (PInf | NInf) => NaN
  | PInf, Fin y => if Qle_bool 0 y then PInf else NInf
  | NInf, Fin y => if Qle_bool 0 y then NInf else PInf
  | Fin x, Fin y =>
      if Qeq_bool y 0
      then (if Qeq_bool x 0 then NaN else if Qle_bool 0 x then PInf else NInf)
      else Fin (x / y)
  end.

(** [np.maximum]: the first argument when it is NaN or at least the second,
    the second otherwise, so that a NaN on either side is returned. *)
Definition maximum (a b : float) : float :=
  if isnan a || fge a b then a else b.

(** [np.max(arr, initial=i)]: the reduction of [np.maximum] from [i]. *)
Definition np_max_initial (arr : list float) (i : float) : float :=
  fold_left maximum arr i.

(** [np.max((a, b))] on a pair of scalars. *)
Definition np_max2 (a b : float) : float := maximum a b.

(** The largest finite [float64], (2^53 - 1) * 2^971. *)
Definition DBL_MAX : Q := inject_Z ((2 ^ 53 - 1) * 2 ^ 971).

(** [np.nan_to_num] with its default arguments, on one component: NaN
    becomes zero and an infinity the finite number of largest magnitude with
    its sign. *)
Definition nan_to_num1 (a : float) : float :=
  match a with
  | NaN => Fin 0
  | PInf => Fin DBL_MAX
  | NInf => Fin (- DBL_MAX)
  | Fin x => Fin x
  end.

Definition nan_to_num (g : list float) : list float := map nan_to_num1 g.

(** ** Exceptions *)

Inductive exn : Type :=
| IndexError
| ValueError.

Inductive result (A : Type) : Type :=
| Ok (a : A)
| Raise (e : exn).

Arguments Ok {A} a.
Arguments Raise {A} e.

Definition bind {A B : Type} (c : result A) (k : A -> result B) : result B :=
  match c with
  | Ok a => k a
  | Raise e => Raise e
  end.

Notation "x <- c ;; k" := (bind c (fun x => k))
  (at level 61, c at next level, right associativity).

(** ** NumPy arrays as lists *)

Definition zeros (n : nat) : list float := repeat (Fin 0) n.
Definition full (n : nat) (v : float) : list float := repeat v n.
Definition zeros_like (v : list float) : list float := zeros (length v).

Definition any (mask : list bool) : bool := existsb (fun b => b) mask.
Definition all (mask : list bool) : bool := forallb (fun b => b) mask.

Definition logical_not (a : list bool) : list bool := map negb a.

Fixpoint zip_and (a b : list bool) : list bool :=
  match a, b with
  | x :: a', y :: b' => (x && y) :: zip_and a' b'
  | _, _ => []
  end.

(** [np.logical_and] on two arrays of one length.  (On other shapes NumPy
    broadcasts when it can and raises otherwise; the module only applies it
    to the flag arrays of one problem.) *)
Definition logical_and (a b : list bool) : result (list bool) :=
  if length a =? length b then Ok (zip_and a b) else Raise ValueError.

(** The elements of [v] at the positions where [mask] is true. *)
Fixpoint pick {A : Type} (mask : list bool) (v : list A) : list A :=
  match mask, v with
  | b :: mask', a :: v' => if b then a :: pick mask' v' else pick mask' v'
  | _, _ => []
  end.

(** Boolean-mask indexing [v[mask]]; [IndexError] when the lengths differ. *)
Definition select {A : Type} (mask : list bool) (v : list A)
  : result (list A) :=
  if length mask =? length v then Ok (pick mask v) else Raise IndexError.

(** [dst] with the positions where [mask] is true overwritten, in order, by
    the elements of [src]. *)
Fixpoint scatter {A : Type} (mask : list bool) (dst src : list A) : list A :=
  match mask, dst with
  | true :: mask', d :: dst' =>
      match src with
      | s :: src' => s :: scatter mask' dst' src'
      | [] => d :: scatter mask' dst' []
      end
  | false :: mask', d :: dst' => d :: scatter mask' dst' src
  | _, _ => dst
  end.

(** Masked assignment [dst[mask] = src] of an array. *)
Definition assign {A : Type} (mask : list bool) (dst src : list A)
  : result (list A) :=
  if length mask =? length dst then
    if length src =? length (pick mask dst) then Ok (scatter mask dst src)
    else Raise ValueError
  else Raise IndexError.

(** Masked assignment [dst[mask] = c] of a scalar. *)
Definition assign_const {A : Type} (mask : list bool) (dst : list A) (c : A)
  : result (list A) :=
  if length mask =? length dst
  then Ok (scatter mask dst (repeat c (length dst)))
  else Raise IndexError.

(** ** The raw problem

    What the module reads from a [pycutest.CUTEstProblem]: its attributes
    and its two evaluators, each with and without the derivative.
    [raw_cons] is [cons(x)] (all the constraints); [raw_cons_grad] is
    [cons(x, gradient=True)], the values with the Jacobian, one row per
    constraint. *)

Record CUTEstProblem : Type := {
  raw_name : string;
  raw_n : nat;
  raw_m : nat;
  raw_x0 : list float;
  bl : list float;
  bu : list float;
  is_linear_cons : list bool;
  is_eq_cons : list bool;
  raw_obj : list float -> float;
  raw_obj_grad : list float -> float * list float;
  raw_cons : list float -> list float;
  raw_cons_grad : list float -> list float * list (list float)
}.

(** ** The SciPy descriptors, as plain data *)

Record Bounds : Type := {
  bounds_lb : list float;
  bounds_ub : list float
}.

Inductive Constraint : Type :=
| LinearConstraint (A : list (list float)) (lb ub : list float)
| NonlinearConstraint (fn : list float -> result (list float))
    (lb ub : list float).

Definition ub (c : Constraint) : list float :=
  match c with
  | LinearConstraint _ _ u => u
  | NonlinearConstraint _ _ u => u
  end.

Definition lb (c : Constraint) : list float :=
  match c with
  | LinearConstraint _ l _ => l
  | NonlinearConstraint _ l _ => l
  end.

(** ** PCTProblem *)

Record PCTProblem : Type := {
  problem : CUTEstProblem;
  name : string;
  n : nat;
  x0 : list float;
  objectives : list float;
  residuals : list float;
  bounds : option Bounds;
  constraints : list Constraint
}.

Definition with_objectives (self : PCTProblem) (o : list float) : PCTProblem :=
  {| problem := problem self; name := name self; n := n self; x0 := x0 self;
     objectives := o; residuals := residuals self;
     bounds := bounds self; constraints := constraints self |}.

Definition with_residuals (self : PCTProblem) (r : list float) : PCTProblem :=
  {| problem := problem self; name := name self; n := n self; x0 := x0 self;
     objectives := objectives self; residuals := r;
     bounds := bounds self; constraints := constraints self |}.

(** The decimal literals of the module. *)
Definition c_1e20 : float := Fin (inject_Z (10 ^ 20)).
Definition c_m1e20 : float := Fin (- inject_Z (10 ^ 20)).
Definition c_1e_2 : float := Fin (1 # 100).
Definition c_1e3 : float := Fin (inject_Z 1000).

Definition clear_memory (self : PCTProblem) : PCTProblem :=
  with_residuals (with_objectives self []) [].

(** The linear part of [get_constraints]: the triple [(Al, lbl, ubl)]. *)
Definition linear_part (p : CUTEstProblem)
  : result (list (list float) * list float * list float) :=
  if any (is_linear_cons p) then
    let '(b0, Al) := raw_cons_grad p (zeros (raw_n p)) in
    let lbl := full (raw_m p) NInf in
    Al <- select (is_linear_cons p) Al ;;
    ubl0 <- select (is_linear_cons p) b0 ;;
    let ubl := map fneg ubl0 in
    eqv <- select (is_eq_cons p) b0 ;;
    lbl <- assign (is_eq_cons p) lbl (map fneg eqv) ;;
    lbl <- select (is_linear_cons p) lbl ;;
    Ok (Al, lbl, ubl)
  else
    Ok ([[]], [], []).

Definition get_constraints (p : CUTEstProblem)
  : result (option Bounds * list Constraint) :=
  let bounds :=
    if forallb (fun b => fle b c_m1e20) (bl p)
       && forallb (fun b => fge b c_1e20) (bu p)
    then None
    else Some {| bounds_lb := bl p; bounds_ub := bu p |} in
  lin <- linear_part p ;;
  let '(Al, lbl, ubl) := lin in
  let ctr := [LinearConstraint Al lbl ubl] in
  if negb (all (is_linear_cons p)) then
    let is_nl := logical_not (is_linear_cons p) in
    let lbn := full (raw_m p) NInf in
    lbn <- assign_const (is_eq_cons p) lbn (Fin 0) ;;
    lbn <- select is_nl lbn ;;
    let ubn := zeros_like lbn in
    Ok (bounds,
        ctr ++ [NonlinearConstraint
                  (fun x => select is_nl (raw_cons p x)) lbn ubn])
  else
    Ok (bounds, ctr).

(** [PCTProblem(problem)]: the constructor. *)
Definition init (p : CUTEstProblem) : result PCTProblem :=
  bc <- get_constraints p ;;
  Ok {| problem := p; name := raw_name p; n := raw_n p; x0 := raw_x0 p;
        objectives := []; residuals := [];
        bounds := fst bc; constraints := snd bc |}.

(** [self.cons(x)]: all the constraints, without derivative. *)
Definition cons (self : PCTProblem) (x : list float) : list float :=
  raw_cons (problem self) x.

(** [self.constraints[0]]. *)
Definition constraints_0 (self : PCTProblem) : result Constraint :=
  match constraints self with
  | c :: _ => Ok c
  | [] => Raise IndexError
  end.

Definition ctr_violations (self : PCTProblem) (cvals : list float)
  (norm_linear_violation : bool) : result float :=
  let p := problem self in
  let is_nl := logical_not (is_linear_cons p) in
  is_l_eq <- logical_and (is_linear_cons p) (is_eq_cons p) ;;
  is_l_ineq <- logical_and (logical_not is_l_eq) (is_linear_cons p) ;;
  is_nl_eq <- logical_and is_nl (is_eq_cons p) ;;
  is_nl_ineq <- logical_and (logical_not is_nl_eq) is_nl ;;
  c_l_eq <- select is_l_eq cvals ;;
  let vlt := np_max_initial (map fabs c_l_eq) (Fin 0) in
  c_l_ineq <- select is_l_ineq cvals ;;
  let vlt := np_max2 vlt (np_max_initial c_l_ineq (Fin 0)) in
  vlt <- (if norm_linear_violation then
            c0 <- constraints_0 self ;;
            Ok (fdiv vlt
                  (np_max2 (Fin 1)
                     (np_max_initial (map fabs (ub c0)) (Fin 0))))
          else Ok vlt) ;;
  c_nl_eq <- select is_nl_eq cvals ;;
  let vlt := np_max2 vlt (np_max_initial (map fabs c_nl_eq) (Fin 0)) in
  c_nl_ineq <- select is_nl_ineq cvals ;;
  let vlt := np_max2 vlt (np_max_initial c_nl_ineq (Fin 0)) in
  Ok vlt.

(** [obj]: the state after the call, and what the call returns (the value,
    with the gradient when it was asked for) or raises.  The objective is
    appended to [objectives] before anything else is done with it. *)
Definition obj (self : PCTProblem) (x : list float)
  (gradient norm_linear_violation : bool)
  : PCTProblem * result (float * option (list float)) :=
  let p := problem self in
  let '(f, g) :=
    if gradient then
      let '(f, g) := raw_obj_grad p x in (f, Some (nan_to_num g))
    else (raw_obj p x, None) in
  let self := with_objectives self (objectives self ++ [f]) in
  let f := if isnan f then PInf else f in
  if 0 <? raw_m p then
    match ctr_violations self (cons self x) norm_linear_violation with
    | Ok vlt =>
        if fgt vlt c_1e_2
        then (with_residuals self (residuals self ++ [PInf]), Ok (f, g))
        else (with_residuals self
                (residuals self ++ [fadd f (fmul c_1e3 vlt)]), Ok (f, g))
    | Raise e => (self, Raise e)
    end
  else (with_residuals self (residuals self ++ [f]), Ok (f, g)).

(** "NaN or at least zero": what a maximum with a floor of 0 can be. *)
Definition nonneg (a : float) : bool := isnan a || fle (Fin 0) a.

(** ** Well-formed raw problems and reachable states *)

(** The shape contract of the provider: two flags per constraint, and
    [raw_m] values (and Jacobian rows) from each constraint evaluation. *)
Record wf_problem (p : CUTEstProblem) : Prop := {
  wf_linear : length (is_linear_cons p) = raw_m p;
  wf_eq : length (is_eq_cons p) = raw_m p;
  wf_cons : forall x, length (raw_cons p x) = raw_m p;
  wf_cons_val : forall x, length (fst (raw_cons_grad p x)) = raw_m p;
  wf_cons_jac : forall x, length (snd (raw_cons_grad p x)) = raw_m p
}.

(** The states of the wrapper of [p]: the one the constructor returns, and
    those that [obj] and [clear_memory] lead to. *)
Inductive reachable (p : CUTEstProblem) : PCTProblem -> Prop :=
| reach_init : forall self, init p = Ok self -> reachable p self
| reach_obj : forall self x gradient nlv,
    reachable p self -> reachable p (fst (obj self x gradient nlv))
| reach_clear : forall self,
    reachable p self -> reachable p (clear_memory self).

(** The raw objective value that [obj] receives from the provider. *)
Definition raw_value (p : CUTEstProblem) (x : list float) (gradient : bool)
  : float :=
  if gradient then fst (raw_obj_grad p x) else raw_obj p x.

(** The value after the NaN test of [obj]. *)
Definition nan_to_inf (f : float) : float := if isnan f then PInf else f.

(** ** The violation measure as the specification words it

    The constraints fall into four groups by their two flags; [group lin eq]
    collects the values of the constraints whose flags are [lin] and [eq]. *)

Fixpoint group (lin eq : bool) (ls es : list bool) (vs : list float)
  : list float :=
  match ls, es, vs with
  | l :: ls', e :: es', v :: vs' =>
      if Bool.eqb l lin && Bool.eqb e eq
      then v :: group lin eq ls' es' vs'
      else group lin eq ls' es' vs'
  | _, _, _ => []
  end.

(** Positive part, max(0, value). *)
Definition positive_part (v : float) : float := maximum (Fin 0) v.

(** The maximum of a list with a floor of 0. *)
Definition max_floor0 (vs : list float) : float := fold_left maximum vs (Fin 0).

(** The linear sub-maximum: linear equalities by absolute value, then linear
    inequalities by positive part. *)
Definition linear_max (ls es : list bool) (vs : list float) : float :=
  maximum (max_floor0 (map fabs (group true true ls es vs)))
          (max_floor0 (map positive_part (group true false ls es vs))).

(** max(1, max |upper bounds|). *)
Definition normalizer (ubs : list float) : float :=
  maximum (Fin 1) (max_floor0 (map fabs ubs)).

(** Folding the two nonlinear maxima into a running maximum. *)
Definition fold_nonlinear (acc : float) (ls es : list bool) (vs : list float)
  : float :=
  maximum
    (maximum acc (max_floor0 (map fabs (group false true ls es vs))))
    (max_floor0 (map positive_part (group false false ls es vs))).

(** Modelled from the spec: the violation measure in the order of section
    4.1, the normalization applied to the linear sub-maximum only. *)
Definition violation_spec (ls es : list bool) (ubs vs : list float)
  (normalize : bool) : float :=
  let lin := linear_max ls es vs in
  let lin := if normalize then fdiv lin (normalizer ubs) else lin in
  fold_nonlinear lin ls es vs.

(** ** A sample problem

    Two variables and the linear equality x1 + x2 = 1, without bounds; the
    objective is x1 + x2. *)

Definition sum2 (x : list float) : float :=
  match x with
  | a :: b :: _ => fadd a b
  | _ => NaN
  end.

Definition sample : CUTEstProblem := {|
  raw_name := "SAMPLE";
  raw_n := 2;
  raw_m := 1;
  raw_x0 := [Fin 0; Fin 0];
  bl := [c_m1e20; c_m1e20];
  bu := [c_1e20; c_1e20];
  is_linear_cons := [true];
  is_eq_cons := [true];
  raw_obj := sum2;
  raw_obj_grad := fun x => (sum2 x, [Fin 1; Fin 1]);
  raw_cons := fun x => [fadd (sum2 x) (Fin (-1))];
  raw_cons_grad := fun x => ([fadd (sum2 x) (Fin (-1))], [[Fin 1; Fin 1]])
|}.

Definition sample_self : PCTProblem := {|
  problem := sample; name := "SAMPLE"; n := 2; x0 := [Fin 0; Fin 0];
  objectives := []; residuals := [];
  bounds := None;
  constraints := [LinearConstraint [[Fin 1; Fin 1]] [Fin 1] [Fin 1]]
|}.

(** An unconstrained problem whose objective is NaN everywhere and whose
    gradient is not finite. *)
Definition nan_problem : CUTEstProblem := {|
  raw_name := "NANOBJ";
  raw_n := 3;
  raw_m := 0;
  raw_x0 := [Fin 0; Fin 0; Fin 0];
  bl := [Fin 0; c_m1e20; c_m1e20];
  bu := [c_1e20; c_1e20; c_1e20];
  is_linear_cons := [];
  is_eq_cons := [];
  raw_obj := fun _ => NaN;
  raw_obj_grad := fun _ => (NaN, [PInf; NInf; NaN]);
  raw_cons := fun _ => [];
  raw_cons_grad := fun _ => ([], [])
|}.

Definition nan_self : PCTProblem := {|
  problem := nan_problem; name := "NANOBJ"; n := 3;
  x0 := [Fin 0; Fin 0; Fin 0];
  objectives := []; residuals := [];
  bounds := Some {| bounds_lb := [Fin 0; c_m1e20; c_m1e20];
                    bounds_ub := [c_1e20; c_1e20; c_1e20] |};
  constraints := [LinearConstraint [[]] [] []]
|}.

(** One linear equality whose value at the origin the provider reports as
    NaN, so that the upper bound of the linear group is NaN. *)
Definition nan_bound_problem : CUTEstProblem := {|
  raw_name := "NANBOUND";
  raw_n := 1;
  raw_m := 1;
  raw_x0 := [Fin 0];
  bl := [c_m1e20];
  bu := [c_1e20];
  is_linear_cons := [true];
  is_eq_cons := [true];
  raw_obj := fun _ => Fin 0;
  raw_obj_grad := fun _ => (Fin 0, [Fin 0]);
  raw_cons := fun _ => [Fin 0];
  raw_cons_grad := fun _ => ([NaN], [[Fin 1]])
|}.

Definition nan_bound_self : PCTProblem := {|
  problem := nan_bound_problem; name := "NANBOUND"; n := 1; x0 := [Fin 0];
  objectives := []; residuals := [];
  bounds := None;
  constraints := [LinearConstraint [[Fin 1]] [NaN] [NaN]]
|}.

(** ** Rows of the linear group, as the specification describes them *)


(** The lower bound of a linear row from its equality flag and its value at
    the origin. *)
Definition lower_of (eb : bool * float) : float :=
  if fst eb then fneg (snd eb) else NInf.

(** "NaN or at least one": what the normalizing divisor can be. *)
Definition ge1 (a : float) : bool := isnan a || fle (Fin 1) a.

(** An unconstrained problem: two variables, objective x1 + x2. *)
Definition free_problem : CUTEstProblem := {|
  raw_name := "FREE";
  raw_n := 2;
  raw_m := 0;
  raw_x0 := [Fin 0; Fin 0];
  bl := [c_m1e20; c_m1e20];
  bu := [c_1e20; c_1e20];
  is_linear_cons := [];
  is_eq_cons := [];
  raw_obj := sum2;
  raw_obj_grad := fun x => (sum2 x, [Fin 1; Fin 1]);
  raw_cons := fun _ => [];
  raw_cons_grad := fun _ => ([], [])
|}.

Definition free_self : PCTProblem := {|
  problem := free_problem; name := "FREE"; n := 2; x0 := [Fin 0; Fin 0];
  objectives := []; residuals := [];
  bounds := None;
  constraints := [LinearConstraint [[]] [] []]
|}.
(** ** More of [problems.py]: the masks, sequences of calls, more samples *)

(** The four masks that [ctr_violations] computes from the two flag
    arrays. *)
Definition mask_l_eq (ls es : list bool) : list bool := zip_and ls es.

Definition mask_l_ineq (ls es : list bool) : list bool :=
  zip_and (logical_not (mask_l_eq ls es)) ls.

Definition mask_nl_eq (ls es : list bool) : list bool :=
  zip_and (logical_not ls) es.

Definition mask_nl_ineq (ls es : list bool) : list bool :=
  zip_and (logical_not (mask_nl_eq ls es)) (logical_not ls).

(** A call of [obj]: the point, [gradient], [norm_linear_violation]. *)
Definition call : Type := (list float * bool * bool)%type.

Definition obj_call (self : PCTProblem) (c : call) : PCTProblem :=
  fst (obj self (fst (fst c)) (snd (fst c)) (snd c)).

(** The state after a sequence of [obj] calls, first call first. *)
Definition run (self : PCTProblem) (calls : list call) : PCTProblem :=
  fold_left obj_call calls self.

(** The lower bound of a nonlinear row from its equality flag. *)
Definition nl_lower_of (e : bool) : float := if e then Fin 0 else NInf.

Definition prod2 (x : list float) : float :=
  match x with
  | a :: b :: _ => fmul a b
  | _ => NaN
  end.

Definition head_or_nan (x : list float) : float :=
  match x with
  | a :: _ => a
  | [] => NaN
  end.

(** Two variables, the linear inequality x1 - 2 <= 0 and the nonlinear
    equality x1 * x2 - 1 = 0; the objective is x1 + x2. *)
Definition mixed : CUTEstProblem := {|
  raw_name := "MIXED";
  raw_n := 2;
  raw_m := 2;
  raw_x0 := [Fin 0; Fin 0];
  bl := [c_m1e20; c_m1e20];
  bu := [c_1e20; c_1e20];
  is_linear_cons := [true; false];
  is_eq_cons := [false; true];
  raw_obj := sum2;
  raw_obj_grad := fun x => (sum2 x, [Fin 1; Fin 1]);
  raw_cons := fun x =>
    [fadd (head_or_nan x) (Fin (-2)); fadd (prod2 x) (Fin (-1))];
  raw_cons_grad := fun x =>
    ([fadd (head_or_nan x) (Fin (-2)); fadd (prod2 x) (Fin (-1))],
     [[Fin 1; Fin 0]; rev x])
|}.

(** A provider that breaks its contract: one constraint is declared, and
    the constraint vector is empty. *)
Definition short_cons : CUTEstProblem := {|
  raw_name := "SHORT";
  raw_n := 2;
  raw_m := 1;
  raw_x0 := [Fin 0; Fin 0];
  bl := [c_m1e20; c_m1e20];
  bu := [c_1e20; c_1e20];
  is_linear_cons := [false];
  is_eq_cons := [true];
  raw_obj := sum2;
  raw_obj_grad := fun x => (sum2 x, [Fin 1; Fin 1]);
  raw_cons := fun _ => [];
  raw_cons_grad := fun _ => ([], [])
|}.

Definition short_self : PCTProblem := {|
  problem := short_cons; name := "SHORT"; n := 2; x0 := [Fin 0; Fin 0];
  objectives := []; residuals := [];
  bounds := None;
  constraints :=
    [LinearConstraint [[]] [] [];
     NonlinearConstraint
       (fun x => select (logical_not (is_linear_cons short_cons))
                   (raw_cons short_cons x))
       [Fin 0] [Fin 0]]
|}.

(** Equal as values: both NaN, or equal for [==]. *)
Definition fsame (a b : float) : bool := (isnan a && isnan b) || feq a b.

(** ** [wrapper.py]: the text of the SIF decoder

    Text is modelled by [string]: characters are code points below 256, on
    which the class [\d] of the pattern is the ten digits 0-9. *)

Definition is_upper (c : ascii) : bool :=
  (65 <=? nat_of_ascii c)%nat && (nat_of_ascii c <=? 90)%nat.

Definition is_digit (c : ascii) : bool :=
  (48 <=? nat_of_ascii c)%nat && (nat_of_ascii c <=? 57)%nat.

Definition newline : ascii := ascii_of_nat 10.
Definition carriage_return : ascii := ascii_of_nat 13.
Definition equal_sign : ascii := ascii_of_nat 61.

(** The longest prefix of [s] whose characters satisfy [f], and the rest. *)
Fixpoint span_while (f : ascii -> bool) (s : string) : string * string :=
  match s with
  | EmptyString => (EmptyString, EmptyString)
  | String c s' =>
      if f c
      then (String c (fst (span_while f s')), snd (span_while f s'))
      else (EmptyString, s)
  end.

(** [sif_pattern.match(line)] for the pattern
    [^(?P<param>[A-Z]+)=(?P<value>\d+)]: the groups [param] and [value]
    when the line starts with one or more capital letters, an equal sign
    and one or more digits (both runs are greedy), [None] otherwise. *)
Definition sif_pattern_match (line : string) : option (string * string) :=
  match span_while is_upper line with
  | (EmptyString, _) => None
  | (param, String c rest) =>
      if Ascii.eqb c equal_sign then
        match span_while is_digit rest with
        | (EmptyString, _) => None
        | (value, _) => Some (param, value)
        end
      else None
  | (_, EmptyString) => None
  end.

(** [int(value)] on a string of digits. *)
Fixpoint int_of_digits (acc : N) (s : string) : N :=
  match s with
  | EmptyString => acc
  | String c s' =>
      int_of_digits (10 * acc + N.of_nat (nat_of_ascii c - 48)) s'
  end.

Definition int (s : string) : N := int_of_digits 0 s.

(** [s.split('\n')]. *)
Fixpoint split_lines (s : string) : list string :=
  match s with
  | EmptyString => [EmptyString]
  | String c s' =>
      if Ascii.eqb c newline then EmptyString :: split_lines s'
      else match split_lines s' with
           | h :: t => String c h :: t
           | [] => [String c EmptyString]
           end
  end.

(** [np.sort] on integers. *)
Fixpoint insert_sorted (a : N) (l : list N) : list N :=
  match l with
  | [] => [a]
  | b :: l' => if (a <=? b)%N then a :: l else b :: insert_sorted a l'
  end.

Definition np_sort (l : list N) : list N :=
  fold_right insert_sorted [] l.

(** The loop of [get_sif_params] over the lines of the decoder output. *)
Definition sif_values (sif_stdout parameter : string) : list N :=
  flat_map
    (fun l_stdout =>
       match sif_pattern_match l_stdout with
       | Some (param, value) =>
           if String.eqb param parameter then [int value] else []
       | None => []
       end)
    (split_lines sif_stdout).

(** [get_sif_params], from the text that [sifdecode -show problem] wrote
    on its standard output (the subprocess itself is outside the model). *)
Definition get_sif_params (sif_stdout parameter : string) : list N :=
  np_sort (sif_values sif_stdout parameter).

(** ** [wrapper.py]: importing problems *)

(** The exceptions, by the handler of [import_problems] that catches them;
    [NumPyError] is an exception of the wrapper of a problem. *)
Inductive pyexn : Type :=
| RuntimeError
| AttributeError
| ModuleNotFoundError
| NumPyError (e : exn)
| OtherError.

Inductive outcome (A : Type) : Type :=
| Return (a : A)
| Throw (e : pyexn).

Arguments Return {A} a.
Arguments Throw {A} e.

Definition and_then {A B : Type} (c : outcome A) (k : A -> outcome B)
  : outcome B :=
  match c with
  | Return a => k a
  | Throw e => Throw e
  end.

Notation "x <-- c ;;; k" := (and_then c (fun x => k))
  (at level 61, c at next level, right associativity).

Definition lift {A : Type} (r : result A) : outcome A :=
  match r with
  | Ok a => Return a
  | Raise e => Throw (NumPyError e)
  end.

(** What the module uses of the package [pycutest]:
    [find_problems(objective, constraints, n=[1, n_max])],
    [problem_properties(prob)['n']] ([None] for a problem of variable
    dimension), the text printed by the SIF decoder for a problem, and
    [import_problem(prob)] or [import_problem(prob, sifParams={'N': d})]. *)
Record PyCUTEst : Type := {
  find_problems : string -> string -> Z -> list string;
  problem_n : string -> outcome (option Z);
  sifdecode_show : string -> string;
  import_problem : string -> option N -> outcome CUTEstProblem
}.

(** [np.max] of a nonempty array of integers. *)
Definition np_max_int (l : list N) : N := fold_right N.max 0%N l.

(** The dimension passed to [import_problem] for a problem of variable
    dimension: the largest available value that is at most [n_max], or
    nothing ([RuntimeError] in the code) when the smallest available value
    exceeds [n_max] or there is none. *)
Definition choose_dimension (dimensions : list N) (n_max : Z) : option N :=
  match dimensions with
  | d0 :: _ =>
      if (Z.of_N d0 <=? n_max)%Z
      then Some (np_max_int
                   (filter (fun d => (Z.of_N d <=? n_max)%Z) dimensions))
      else None
  | [] => None
  end.

(** The body of the [try] statement for one problem name: the problem
    loaded from the provider, then [None] when it is rejected for having
    no linear equality constraint and the wrapper otherwise. *)
Definition load_problem (env : PyCUTEst) (n_max : Z)
  (some_linear_equality : bool) (prob : string)
  : outcome (option PCTProblem) :=
  n_prob <-- problem_n env prob ;;;
  py_prob <--
    match n_prob with
    | None =>
        let dimensions := get_sif_params (sifdecode_show env prob) "N" in
        match choose_dimension dimensions n_max with
        | Some d =>
            py_prob <-- import_problem env prob (Some d) ;;;
            if (n_max <? Z.of_nat (raw_n py_prob))%Z
            then Throw RuntimeError
            else Return py_prob
        | None => Throw RuntimeError
        end
    | Some _ => import_problem env prob None
    end ;;;
  rejected <--
    (if some_linear_equality
     then l_eq <-- lift (logical_and (is_linear_cons py_prob)
                           (is_eq_cons py_prob)) ;;;
          Return (negb (any l_eq))
     else Return false) ;;;
  if rejected then Return None
  else self <-- lift (init py_prob) ;;; Return (Some self).

(** One iteration of the loop: the [try] statement with its handlers. *)
Definition try_load (env : PyCUTEst) (n_max : Z)
  (some_linear_equality : bool) (prob : string)
  : outcome (option PCTProblem) :=
  match load_problem env n_max some_linear_equality prob with
  | Throw RuntimeError => Return None
  | Throw AttributeError => Return None
  | Throw ModuleNotFoundError => Return None
  | r => r
  end.

(** [sorted] on names. *)
Fixpoint insert_name (a : string) (l : list string) : list string :=
  match l with
  | [] => [a]
  | b :: l' => if String.leb a b then a :: l else b :: insert_name a l'
  end.

Definition sorted (l : list string) : list string :=
  fold_right insert_name [] l.

Fixpoint import_loop (env : PyCUTEst) (n_max : Z)
  (some_linear_equality : bool) (names : list string)
  (problems : list PCTProblem) : outcome (list PCTProblem) :=
  match names with
  | [] => Return problems
  | prob :: rest =>
      loaded <-- try_load env n_max some_linear_equality prob ;;;
      import_loop env n_max some_linear_equality rest
        (match loaded with
         | Some self => problems ++ [self]
         | None => problems
         end)
  end.

(** Text files: the translation of line ends done on reading, then
    [readlines] and [strip(os.linesep)], [os.linesep] being the newline
    character on the two supported systems. *)
Fixpoint universal_newlines (s : string) : string :=
  match s with
  | EmptyString => EmptyString
  | String c s' =>
      if Ascii.eqb c carriage_return then
        match s' with
        | String c' s'' =>
            if Ascii.eqb c' newline
            then String newline (universal_newlines s'')
            else String newline (universal_newlines s')
        | EmptyString => String newline EmptyString
        end
      else String c (universal_newlines s')
  end.

Fixpoint readlines (s : string) : list string :=
  match s with
  | EmptyString => []
  | String c s' =>
      if Ascii.eqb c newline then String c EmptyString :: readlines s'
      else match readlines s' with
           | h :: t => String c h :: t
           | [] => [String c EmptyString]
           end
  end.

Fixpoint lstrip (c : ascii) (s : string) : string :=
  match s with
  | EmptyString => EmptyString
  | String a s' => if Ascii.eqb a c then lstrip c s' else s
  end.

Fixpoint rstrip (c : ascii) (s : string) : string :=
  match s with
  | EmptyString => EmptyString
  | String a s' =>
      match rstrip c s' with
      | EmptyString => if Ascii.eqb a c then EmptyString
                       else String a EmptyString
      | r => String a r
      end
  end.

Definition strip (c : ascii) (s : string) : string := rstrip c (lstrip c s).

(** The three ways of naming the problems: by the classification, by the
    text of a file of names, by a list. *)
Inductive cutest_arg : Type :=
| ByClass (objective constraints : string)
| FromFile (content : string)
| FromList (names : list string).

Definition problem_names (env : PyCUTEst) (n_max : Z) (cutest : cutest_arg)
  : list string :=
  match cutest with
  | ByClass objective constraints =>
      find_problems env objective constraints n_max
  | FromFile content =>
      map (strip newline) (readlines (universal_newlines content))
  | FromList names => names
  end.

(** [import_problems]: the new value of [self.problems]. *)
Definition import_problems (env : PyCUTEst) (n_max : Z)
  (cutest : cutest_arg) (some_linear_equality : bool)
  : outcome (list PCTProblem) :=
  import_loop env n_max some_linear_equality
    (sorted (problem_names env n_max cutest)) [].

Definition get_problem_names (problems : list PCTProblem) : list string :=
  map name problems.

(** The text that [save_problems] writes. *)
Definition save_problems (problems : list PCTProblem) : string :=
  String.concat (String newline EmptyString) (get_problem_names problems).

(** Every character of [s] satisfies [f]. *)
Fixpoint all_chars (f : ascii -> bool) (s : string) : bool :=
  match s with
  | EmptyString => true
  | String c s' => f c && all_chars f s'
  end.

(** [s] does not begin with a character that satisfies [f]. *)
Definition stops (f : ascii -> bool) (s : string) : bool :=
  match s with
  | EmptyString => true
  | String c _ => negb (f c)
  end.

Definition is_not (c : ascii) (a : ascii) : bool := negb (Ascii.eqb a c).


(** A provider for the examples: the problem SAMPLE has a fixed dimension,
    MIXED has the variable dimensions that the decoder lists, and any other
    name fails to load. *)
Definition sample_env : PyCUTEst := {|
  find_problems := fun _ _ _ => ["SAMPLE"; "MIXED"]%string;
  problem_n := fun prob =>
    if String.eqb prob "SAMPLE" then Return (Some 2%Z)
    else if String.eqb prob "MIXED" then Return None
    else Throw AttributeError;
  sifdecode_show := fun _ =>
    String.concat (String newline EmptyString)
      ["N=2       problem dimension"; "N=10"; "N=1000"; "M=3"]%string;
  import_problem := fun prob _ =>
    if String.eqb prob "SAMPLE" then Return sample
    else if String.eqb prob "MIXED" then Return mixed
    else Throw ModuleNotFoundError
|}.

(** * Properties *)

(** ** Order and maximum on [float] *)

Ltac qbool :=
  repeat match goal with
  | H : Qle_bool _ _ = true |- _ => apply Qle_bool_iff in H
  | H : Qle_bool _ _ = false |- _ =>
      apply not_true_iff_false in H; rewrite Qle_bool_iff in H
  | H : Qeq_bool _ _ = true |- _ => apply Qeq_bool_iff in H
  | H : Qeq_bool _ _ = false |- _ =>
      apply not_true_iff_false in H; rewrite Qeq_bool_iff in H
  | |- Qle_bool _ _ = true => apply Qle_bool_iff
  | |- Qle_bool _ _ = false =>
      apply not_true_iff_false; rewrite Qle_bool_iff
  | |- Qeq_bool _ _ = true => apply Qeq_bool_iff
  | |- Qeq_bool _ _ = false =>
      apply not_true_iff_false; rewrite Qeq_bool_iff
  end.

Ltac qsplit :=
  repeat match goal with
  | |- context [Qle_bool ?a ?b] => destruct (Qle_bool a b) eqn:?; simpl in *
  | |- context [Qeq_bool ?a ?b] => destruct (Qeq_bool a b) eqn:?; simpl in *
  end;
  try reflexivity; try discriminate.

Ltac fcase a x := destruct a as [ | | x | ]; simpl in *;
  try reflexivity; try discriminate.

Lemma isnan_maximum (a b : float) :
  isnan (maximum a b) = isnan a || isnan b.
Proof.
  unfold maximum, fge. fcase a x; fcase b y.
  destruct (Qle_bool y x); reflexivity.
Qed.

Lemma isnan_fold_maximum (l : list float) (i : float) :
  isnan (fold_left maximum l i) = isnan i || existsb isnan l.
Proof.
  revert i. induction l as [ | v l IH]; intros i; simpl.
  - now rewrite orb_false_r.
  - rewrite IH, isnan_maximum. now rewrite orb_assoc.
Qed.

Lemma maximum_absorb (a b : float) : fle b a = true -> maximum a b = a.
Proof.
  intros H. unfold maximum, fge. rewrite H. now rewrite orb_true_r.
Qed.

Lemma fold_maximum_absorb (l : list float) (a : float) :
  Forall (fun v => fle v a = true) l -> fold_left maximum l a = a.
Proof.
  induction 1 as [ | v l Hv _ IH]; simpl; [reflexivity | ].
  now rewrite (maximum_absorb _ _ Hv).
Qed.

Lemma nonneg_maximum (a b : float) :
  nonneg a = true -> nonneg (maximum a b) = true.
Proof.
  unfold nonneg, maximum, fge. fcase a x.
  - fcase b y; auto. destruct (Qle_bool y x) eqn:E; simpl; auto.
    intros H. qbool. lra.
  - fcase b y.
Qed.

Lemma nonneg_fold_maximum (l : list float) (i : float) :
  nonneg i = true -> nonneg (fold_left maximum l i) = true.
Proof.
  revert i. induction l as [ | v l IH]; intros i Hi; simpl; auto.
  apply IH. now apply nonneg_maximum.
Qed.

Lemma nonneg_max_floor0 (l : list float) : nonneg (max_floor0 l) = true.
Proof. apply nonneg_fold_maximum. reflexivity. Qed.

Lemma nonneg_not_lt0 (a : float) : nonneg a = true -> flt a (Fin 0) = false.
Proof.
  unfold nonneg. fcase a x. intros H. now rewrite H.
Qed.

Lemma nonneg_ge0 (a : float) :
  nonneg a = true -> isnan a = false -> fle (Fin 0) a = true.
Proof. unfold nonneg. intros H N. now rewrite N in H. Qed.

(** A positive part changes nothing under a running maximum that starts
    from the floor. *)
Lemma maximum_positive_part (i v : float) :
  nonneg i = true -> maximum i (positive_part v) = maximum i v.
Proof.
  unfold nonneg, positive_part, maximum, fge.
  fcase i x; fcase v y; intros H; qsplit; qbool; lra.
Qed.

Lemma fold_maximum_positive_part (l : list float) (i : float) :
  nonneg i = true ->
  fold_left maximum (map positive_part l) i = fold_left maximum l i.
Proof.
  revert i. induction l as [ | v l IH]; intros i Hi; simpl; auto.
  rewrite (maximum_positive_part _ _ Hi). apply IH.
  now apply nonneg_maximum.
Qed.

(** ** Masks and selections *)

Lemma length_logical_not (a : list bool) :
  length (logical_not a) = length a.
Proof. apply length_map. Qed.

Lemma length_zip_and (a b : list bool) :
  length (zip_and a b) = Nat.min (length a) (length b).
Proof.
  revert b. induction a as [ | x a IH]; intros [ | y b]; simpl; auto.
Qed.

Lemma logical_and_ok (a b : list bool) :
  length a = length b -> logical_and a b = Ok (zip_and a b).
Proof.
  intros H. unfold logical_and. now rewrite H, Nat.eqb_refl.
Qed.

Lemma select_ok (A : Type) (mask : list bool) (v : list A) :
  length mask = length v -> select mask v = Ok (pick mask v).
Proof.
  intros H. unfold select. now rewrite H, Nat.eqb_refl.
Qed.

Lemma pick_l_eq (ls es : list bool) (vs : list float) :
  pick (zip_and ls es) vs = group true true ls es vs.
Proof.
  revert es vs.
  induction ls as [ | l ls IH]; intros [ | e es] [ | v vs]; simpl; auto.
  destruct l, e; simpl; now rewrite IH.
Qed.

Lemma pick_l_ineq (ls es : list bool) (vs : list float) :
  pick (zip_and (logical_not (zip_and ls es)) ls) vs
  = group true false ls es vs.
Proof.
  revert es vs.
  induction ls as [ | l ls IH]; intros [ | e es] [ | v vs]; simpl; auto.
  destruct l, e; simpl; now rewrite IH.
Qed.

Lemma pick_nl_eq (ls es : list bool) (vs : list float) :
  pick (zip_and (logical_not ls) es) vs = group false true ls es vs.
Proof.
  revert es vs.
  induction ls as [ | l ls IH]; intros [ | e es] [ | v vs]; simpl; auto.
  destruct l, e; simpl; now rewrite IH.
Qed.

Lemma pick_nl_ineq (ls es : list bool) (vs : list float) :
  pick (zip_and (logical_not (zip_and (logical_not ls) es)) (logical_not ls))
       vs
  = group false false ls es vs.
Proof.
  revert es vs.
  induction ls as [ | l ls IH]; intros [ | e es] [ | v vs]; simpl; auto.
  destruct l, e; simpl; now rewrite IH.
Qed.

Ltac lens :=
  repeat rewrite ?length_logical_not, ?length_zip_and; lia.

(** On flag arrays and a value vector of one length, [ctr_violations]
    returns, and returns the measure of the specification. *)
Lemma ctr_violations_value (self : PCTProblem) (c0 : Constraint)
  (vs : list float) (nlv : bool) :
  length (is_linear_cons (problem self)) = length vs ->
  length (is_eq_cons (problem self)) = length vs ->
  constraints_0 self = Ok c0 ->
  ctr_violations self vs nlv
  = Ok (violation_spec (is_linear_cons (problem self))
          (is_eq_cons (problem self)) (ub c0) vs nlv).
Proof.
  intros Hl He H0. unfold ctr_violations.
  set (ls := is_linear_cons (problem self)) in *.
  set (es := is_eq_cons (problem self)) in *.
  rewrite (logical_and_ok ls es) by lia. cbn [bind].
  rewrite logical_and_ok by lens. cbn [bind].
  rewrite logical_and_ok by lens. cbn [bind].
  rewrite logical_and_ok by lens. cbn [bind].
  rewrite !select_ok by lens. cbn [bind].
  rewrite H0.
  rewrite pick_l_eq, pick_l_ineq, pick_nl_eq, pick_nl_ineq.
  unfold violation_spec, fold_nonlinear, linear_max, normalizer, np_max2,
    np_max_initial, max_floor0.
  rewrite !fold_maximum_positive_part by reflexivity.
  destruct nlv; reflexivity.
Qed.

(** ** Construction *)

Lemma pick_map (A B : Type) (f : A -> B) (mask : list bool) (v : list A) :
  pick mask (map f v) = map f (pick mask v).
Proof.
  revert v. induction mask as [ | b mask IH]; intros [ | a v]; simpl; auto.
  destruct b; simpl; now rewrite IH.
Qed.

Lemma pick_none (A : Type) (mask : list bool) (v : list A) :
  any mask = false -> pick mask v = [].
Proof.
  revert v. induction mask as [ | b mask IH]; intros [ | a v]; simpl; auto.
  destruct b; simpl; [discriminate | apply IH].
Qed.

Lemma length_pick (A : Type) (mask : list bool) (v : list A) :
  length mask = length v ->
  length (pick mask v) = length (filter (fun b => b) mask).
Proof.
  revert v. induction mask as [ | b mask IH]; intros [ | a v]; simpl;
    try discriminate; auto.
  intros H. injection H as H. destruct b; simpl; now rewrite IH.
Qed.

Lemma length_scatter (A : Type) (mask : list bool) (dst src : list A) :
  length (scatter mask dst src) = length dst.
Proof.
  revert dst src.
  induction mask as [ | b mask IH]; intros [ | d dst] src;
    try destruct b; try destruct src; simpl; auto.
Qed.

Lemma scatter_pick (mask : list bool) (d : float) (f : float -> float)
  (v : list float) :
  length mask = length v ->
  scatter mask (repeat d (length v)) (map f (pick mask v))
  = map (fun eb : bool * float => if fst eb then f (snd eb) else d)
      (combine mask v).
Proof.
  revert v. induction mask as [ | b mask IH]; intros [ | a v]; simpl;
    try discriminate; auto.
  intros H. injection H as H. destruct b; simpl; now rewrite IH.
Qed.


Lemma linear_part_ok (p : CUTEstProblem) :
  wf_problem p ->
  linear_part p
  = Ok (if any (is_linear_cons p)
        then pick (is_linear_cons p)
               (snd (raw_cons_grad p (zeros (raw_n p))))
        else [[]],
        pick (is_linear_cons p)
          (map lower_of
             (combine (is_eq_cons p)
                (fst (raw_cons_grad p (zeros (raw_n p)))))),
        map fneg
          (pick (is_linear_cons p)
             (fst (raw_cons_grad p (zeros (raw_n p)))))).
Proof.
  intros [Hl He _ Hv Hj]. unfold linear_part.
  specialize (Hv (zeros (raw_n p))). specialize (Hj (zeros (raw_n p))).
  destruct (raw_cons_grad p (zeros (raw_n p))) as [b0 J]. simpl in *.
  destruct (any (is_linear_cons p)) eqn:Hany.
  - rewrite select_ok by lia. simpl.
    rewrite select_ok by lia. simpl.
    rewrite select_ok by lia. simpl.
    unfold assign, full. rewrite repeat_length, He, Nat.eqb_refl.
    rewrite length_map, !length_pick by (rewrite ?repeat_length; lia).
    rewrite Nat.eqb_refl. simpl.
    rewrite select_ok by (rewrite length_scatter, repeat_length; lia).
    simpl. rewrite <- Hv at 1. rewrite scatter_pick by lia.
    reflexivity.
  - rewrite !pick_none by assumption. reflexivity.
Qed.

Lemma get_constraints_ok (p : CUTEstProblem) :
  wf_problem p ->
  exists bnd A l u rest,
    get_constraints p = Ok (bnd, LinearConstraint A l u :: rest)
    /\ linear_part p = Ok (A, l, u).
Proof.
  intros Hwf. pose proof (linear_part_ok p Hwf) as Hlin.
  destruct Hwf as [Hl He _ _ _].
  unfold get_constraints. rewrite Hlin. simpl.
  destruct (negb (all (is_linear_cons p))).
  - unfold assign_const, full. rewrite repeat_length, He, Nat.eqb_refl.
    simpl.
    rewrite select_ok
      by (rewrite length_logical_not, length_scatter, repeat_length; lia).
    simpl. do 5 eexists. split; reflexivity.
  - do 5 eexists. split; reflexivity.
Qed.

Lemma init_ok (p : CUTEstProblem) :
  wf_problem p ->
  exists self A l u,
    init p = Ok self
    /\ problem self = p
    /\ objectives self = [] /\ residuals self = []
    /\ constraints_0 self = Ok (LinearConstraint A l u)
    /\ linear_part p = Ok (A, l, u).
Proof.
  intros Hwf.
  destruct (get_constraints_ok p Hwf) as (bnd & A & l & u & rest & Hg & Hlin).
  unfold init. rewrite Hg. simpl.
  eexists; exists A, l, u. repeat split; try reflexivity. exact Hlin.
Qed.

(** ** [obj] and the states it leads to *)

Lemma obj_frame (self : PCTProblem) (x : list float) (g nlv : bool) :
  problem (fst (obj self x g nlv)) = problem self
  /\ constraints (fst (obj self x g nlv)) = constraints self
  /\ bounds (fst (obj self x g nlv)) = bounds self.
Proof.
  unfold obj.
  destruct g; [destruct (raw_obj_grad (problem self) x) as [f gr] | ];
    (destruct (0 <? raw_m (problem self));
      [ destruct (ctr_violations _ _ _) as [vlt | e];
        [ destruct (fgt vlt c_1e_2) | ] | ]);
    simpl; auto.
Qed.

Lemma reachable_frame (p : CUTEstProblem) (self : PCTProblem) :
  wf_problem p -> reachable p self ->
  problem self = p
  /\ exists A l u,
       constraints_0 self = Ok (LinearConstraint A l u)
       /\ linear_part p = Ok (A, l, u).
Proof.
  intros Hwf. induction 1 as [self Hi | self x g nlv _ IH | self _ IH].
  - destruct (init_ok p Hwf) as (s & A & l & u & Hs & Hp & _ & _ & H0 & Hlin).
    rewrite Hs in Hi. injection Hi as <-. eauto 6.
  - destruct (obj_frame self x g nlv) as (Hp & Hc & _).
    destruct IH as (IHp & A & l & u & H0 & Hlin). split; [congruence | ].
    exists A, l, u. split; auto. unfold constraints_0 in *. now rewrite Hc.
  - exact IH.
Qed.

(** What [obj] does on a wrapper whose flag arrays fit the provider's
    constraint vector: the raw value goes to [objectives]; the value after
    the NaN test is returned and enters the merit value. *)
Lemma obj_value (self : PCTProblem) (c0 : Constraint) (x : list float)
  (g nlv : bool) :
  let p := problem self in
  let f := raw_value p x g in
  let vlt := violation_spec (is_linear_cons p) (is_eq_cons p) (ub c0)
               (raw_cons p x) nlv in
  length (is_linear_cons p) = length (raw_cons p x) ->
  length (is_eq_cons p) = length (raw_cons p x) ->
  constraints_0 self = Ok c0 ->
  obj self x g nlv
  = (with_residuals (with_objectives self (objectives self ++ [f]))
       (residuals self ++
          [if 0 <? raw_m p
           then if fgt vlt c_1e_2 then PInf
                else fadd (nan_to_inf f) (fmul c_1e3 vlt)
           else nan_to_inf f]),
     Ok (nan_to_inf f,
         if g then Some (nan_to_num (snd (raw_obj_grad p x))) else None)).
Proof.
  intros p f vlt Hl He H0. unfold obj. fold p.
  assert (E : (if g
               then let '(f0, g0) := raw_obj_grad p x in
                    (f0, Some (nan_to_num g0))
               else (raw_obj p x, None))
              = (f, if g then Some (nan_to_num (snd (raw_obj_grad p x)))
                    else None)).
  { unfold f, raw_value. destruct g; [destruct (raw_obj_grad p x) | ];
      reflexivity. }
  rewrite E. clear E.
  destruct (0 <? raw_m p).
  - rewrite (ctr_violations_value _ c0) by assumption.
    change (violation_spec _ _ _ _ _) with vlt.
    destruct (fgt vlt c_1e_2); reflexivity.
  - reflexivity.
Qed.

(** ** Division by the normalizer, zero and monotonicity *)

Lemma isnan_fabs (a : float) : isnan (fabs a) = isnan a.
Proof. destruct a; reflexivity. Qed.

Lemma existsb_isnan_fabs (l : list float) :
  existsb isnan (map fabs l) = existsb isnan l.
Proof.
  induction l as [ | a l IH]; simpl; auto. now rewrite isnan_fabs, IH.
Qed.

Lemma isnan_normalizer (ubs : list float) :
  isnan (normalizer ubs) = existsb isnan ubs.
Proof.
  unfold normalizer, max_floor0.
  rewrite isnan_maximum, isnan_fold_maximum, existsb_isnan_fabs.
  reflexivity.
Qed.

Lemma ge1_normalizer (ubs : list float) : ge1 (normalizer ubs) = true.
Proof.
  unfold ge1, normalizer, maximum, fge.
  destruct (max_floor0 (map fabs ubs)) as [ | | y | ]; simpl; auto.
  destruct (Qle_bool y 1) eqn:E; simpl; auto.
  qbool. lra.
Qed.

Lemma Qdiv_nonneg (x y : Q) : 0 <= x -> 1 <= y -> 0 <= x / y.
Proof.
  intros Hx Hy. apply Qle_shift_div_l; lra.
Qed.

Lemma Qdiv_le_self (x y : Q) : 0 <= x -> 1 <= y -> x / y <= x.
Proof.
  intros Hx Hy. apply Qle_shift_div_r; [lra | nra].
Qed.

Lemma nonneg_fdiv (a d : float) :
  nonneg a = true -> ge1 d = true -> nonneg (fdiv a d) = true.
Proof.
  unfold nonneg, ge1.
  destruct a as [ | | x | ], d as [ | | y | ]; simpl; auto; try discriminate.
  - intros Hx Hy. qbool.
    destruct (Qeq_bool y 0) eqn:E; qbool; [lra | ].
    simpl. qbool. now apply Qdiv_nonneg.
  - intros _ Hy. qbool.
    destruct (Qle_bool 0 y) eqn:E; qbool; [reflexivity | lra].
Qed.

Lemma fdiv_le_self (a d : float) :
  nonneg a = true -> ge1 d = true -> isnan (fdiv a d) = false ->
  fle (fdiv a d) a = true.
Proof.
  unfold nonneg, ge1.
  destruct a as [ | | x | ], d as [ | | y | ]; simpl; auto; try discriminate.
  - intros Hx Hy. qbool.
    destruct (Qeq_bool y 0) eqn:E; qbool; [lra | ].
    intros _. simpl. qbool. now apply Qdiv_le_self.
  - intros _ Hy. qbool.
    destruct (Qle_bool 0 y) eqn:E; qbool; [reflexivity | lra].
Qed.

Lemma fle_not_flt (a b : float) : fle a b = true -> flt b a = false.
Proof.
  destruct a as [ | | x | ], b as [ | | y | ]; simpl; auto;
    intros H; now rewrite H.
Qed.

Lemma flt_nan_r (a : float) : flt a NaN = false.
Proof. destruct a; reflexivity. Qed.

Lemma fle_maximum_mono (a a' c : float) :
  fle a a' = true -> isnan c = false ->
  fle (maximum a c) (maximum a' c) = true.
Proof.
  unfold maximum, fge.
  destruct a as [ | | x | ], a' as [ | | x' | ], c as [ | | z | ];
    simpl; auto; try discriminate; intros H _; qsplit; qbool; lra.
Qed.

(** A value that is zero absorbs, under [maximum], whatever is at most
    zero. *)
Lemma maximum_zero (a b : float) :
  feq a (Fin 0) = true -> fle b (Fin 0) = true -> maximum a b = a.
Proof.
  intros Ha Hb. apply maximum_absorb.
  unfold feq in Ha. apply andb_true_iff in Ha as [H1 H2].
  destruct a as [ | | x | ], b as [ | | y | ]; simpl in *; auto;
    try discriminate.
  qbool. lra.
Qed.

Lemma feq_zero_fabs_le (v : float) :
  feq v (Fin 0) = true -> fle (fabs v) (Fin 0) = true.
Proof.
  unfold feq. intros H. apply andb_true_iff in H as [H1 H2].
  destruct v as [ | | x | ]; simpl in *; auto; try discriminate.
  qbool. apply Qabs_case; lra.
Qed.

Lemma positive_part_le_zero (v : float) :
  fle v (Fin 0) = true -> fle (positive_part v) (Fin 0) = true.
Proof.
  intros H. unfold positive_part. now rewrite (maximum_absorb _ _ H).
Qed.

Lemma feq_zero_fdiv (a d : float) :
  feq a (Fin 0) = true -> ge1 d = true -> isnan d = false ->
  feq (fdiv a d) (Fin 0) = true.
Proof.
  unfold feq, ge1. intros H. apply andb_true_iff in H as [H1 H2].
  destruct a as [ | | x | ], d as [ | | y | ]; simpl in *; auto;
    try discriminate.
  intros Hy _. qbool.
  destruct (Qeq_bool y 0) eqn:E; qbool; [lra | ].
  simpl. apply andb_true_iff. split; qbool.
  - apply Qle_shift_div_r; lra.
  - apply Qle_shift_div_l; lra.
Qed.

(** ** The sample problems

    The states written out with the sample problems are the ones the
    constructor returns. *)

Lemma sample_init : init sample = Ok sample_self.
Proof. reflexivity. Qed.

Lemma nan_problem_init : init nan_problem = Ok nan_self.
Proof. reflexivity. Qed.

Lemma nan_bound_problem_init : init nan_bound_problem = Ok nan_bound_self.
Proof. reflexivity. Qed.

Lemma free_problem_init : init free_problem = Ok free_self.
Proof. reflexivity. Qed.

(** * The claims *)












(** The example of the specification: x1 + x2 = 1 has the value -1 at the
    origin, and its row of the linear group gets lower = upper = 1. *)
Lemma sample_linear_group :
  fst (raw_cons_grad sample (zeros (raw_n sample))) = [Fin (-1)]
  /\ get_constraints sample
     = Ok (None, [LinearConstraint [[Fin 1; Fin 1]] [Fin 1] [Fin 1]]).
Proof. split; reflexivity. Qed.

Lemma init_bounds (p : CUTEstProblem) (self : PCTProblem) :
  init p = Ok self ->
  bounds self
  = if forallb (fun b => fle b c_m1e20) (bl p)
       && forallb (fun b => fge b c_1e20) (bu p)
    then None
    else Some {| bounds_lb := bl p; bounds_ub := bu p |}.
Proof.
  unfold init, get_constraints.
  destruct (linear_part p) as [[[A l] u] | e]; cbn [bind]; [ | discriminate].
  destruct (negb (all (is_linear_cons p))).
  - destruct (assign_const _ _ _) as [lbn | e]; cbn [bind]; [ | discriminate].
    destruct (select _ lbn) as [lbn' | e]; cbn [bind]; [ | discriminate].
    intros H. injection H as <-. reflexivity.
  - cbn [bind]. intros H. injection H as <-. reflexivity.
Qed.

(** C8.  The constructor returns, and the bound descriptor is the
    "unconstrained" sentinel ([None]) if and only if every lower bound is
    <= -1e20 and every upper bound is >= 1e20; otherwise it is the pair of
    the problem's bound vectors. *)
Theorem C8_bounds_sentinel (p : CUTEstProblem) :
  wf_problem p ->
  exists self : PCTProblem,
    init p = Ok self
    /\ (bounds self = None
        <-> Forall (fun b => fle b c_m1e20 = true) (bl p)
            /\ Forall (fun b => fge b c_1e20 = true) (bu p))
    /\ (bounds self <> None ->
        bounds self = Some {| bounds_lb := bl p; bounds_ub := bu p |}).
Proof.
  intros Hwf.
  destruct (init_ok p Hwf) as (self & _ & _ & _ & Hs & _).
  exists self. split; [exact Hs | ].
  rewrite (init_bounds p self Hs).
  destruct (forallb (fun b => fle b c_m1e20) (bl p)
            && forallb (fun b => fge b c_1e20) (bu p)) eqn:E.
  - apply andb_true_iff in E as [E1 E2].
    rewrite forallb_forall in E1, E2. split.
    + split; [split; apply Forall_forall; assumption | reflexivity].
    + intros H. now contradiction H.
  - split; [ | reflexivity]. split; [discriminate | ].
    intros [H1 H2]. rewrite Forall_forall in H1, H2.
    rewrite <- forallb_forall in H1, H2. rewrite H1, H2 in E. discriminate.
Qed.

Lemma C8_bounds_sentinel_witness :
  wf_problem nan_problem
  /\ exists self : PCTProblem,
       init nan_problem = Ok self
       /\ (bounds self = None
           <-> Forall (fun b => fle b c_m1e20 = true) (bl nan_problem)
               /\ Forall (fun b => fge b c_1e20 = true) (bu nan_problem))
       /\ (bounds self <> None ->
           bounds self
           = Some {| bounds_lb := bl nan_problem;
                     bounds_ub := bu nan_problem |}).
Proof.
  assert (Hwf : wf_problem nan_problem)
    by (constructor; intros; reflexivity).
  split; [exact Hwf | ].
  exact (C8_bounds_sentinel nan_problem Hwf).
Defined.

Lemma isnan_true (f : float) : isnan f = true -> f = NaN.
Proof. destruct f; simpl; congruence. Qed.

Lemma obj_reachable_value (p : CUTEstProblem) (self : PCTProblem)
  (x : list float) (g nlv : bool) :
  wf_problem p -> reachable p self ->
  exists r : float,
    obj self x g nlv
    = (with_residuals
         (with_objectives self (objectives self ++ [raw_value p x g]))
         (residuals self ++ [r]),
       Ok (nan_to_inf (raw_value p x g),
           if g then Some (nan_to_num (snd (raw_obj_grad p x))) else None))
    /\ (raw_m p = 0%nat -> r = nan_to_inf (raw_value p x g)).
Proof.
  intros Hwf Hr.
  destruct (reachable_frame p self Hwf Hr) as (Hp & A & l & u & H0 & _).
  pose proof (wf_linear p Hwf) as Hl. pose proof (wf_eq p Hwf) as He.
  pose proof (wf_cons p Hwf x) as Hc. subst p.
  rewrite (obj_value self (LinearConstraint A l u) x g nlv)
    by (try exact H0; lia).
  eexists. split; [reflexivity | ].
  intros Hm. rewrite Hm. reflexivity.
Qed.

(** C4, as stated, fails: when the provider returns NaN, the entry appended
    to [objectives] is NaN, not +inf. *)
Lemma C4_counterexample :
  init nan_problem = Ok nan_self
  /\ raw_value nan_problem [Fin 0; Fin 0; Fin 0] false = NaN
  /\ objectives (fst (obj nan_self [Fin 0; Fin 0; Fin 0] false false))
     = objectives nan_self ++ [NaN]
  /\ objectives (fst (obj nan_self [Fin 0; Fin 0; Fin 0] false false))
     <> objectives nan_self ++ [PInf].
Proof.
  repeat split; try reflexivity. simpl. discriminate.
Qed.

(** C4, amended.  When the provider returns NaN as the objective value, the
    entry appended to [objectives] is that NaN (the value is stored before
    the test); +inf is what the call returns. *)
Theorem C4_nan_objective (p : CUTEstProblem) (self : PCTProblem)
  (x : list float) (gradient nlv : bool) :
  wf_problem p -> reachable p self ->
  isnan (raw_value p x gradient) = true ->
  objectives (fst (obj self x gradient nlv)) = objectives self ++ [NaN]
  /\ exists g, snd (obj self x gradient nlv) = Ok (PInf, g).
Proof.
  intros Hwf Hr Hn.
  destruct (obj_reachable_value p self x gradient nlv Hwf Hr) as (r & -> & _).
  apply isnan_true in Hn. rewrite Hn. simpl. split; [reflexivity | ].
  eexists. reflexivity.
Qed.

Lemma C4_nan_objective_witness :
  wf_problem nan_problem /\ reachable nan_problem nan_self
  /\ isnan (raw_value nan_problem [Fin 0; Fin 0; Fin 0] true) = true
  /\ objectives (fst (obj nan_self [Fin 0; Fin 0; Fin 0] true false))
     = objectives nan_self ++ [NaN]
  /\ exists g,
       snd (obj nan_self [Fin 0; Fin 0; Fin 0] true false) = Ok (PInf, g).
Proof.
  assert (Hwf : wf_problem nan_problem)
    by (constructor; intros; reflexivity).
  assert (Hr : reachable nan_problem nan_self)
    by (apply reach_init; reflexivity).
  assert (Hn : isnan (raw_value nan_problem [Fin 0; Fin 0; Fin 0] true) = true)
    by reflexivity.
  split; [exact Hwf | ]. split; [exact Hr | ]. split; [exact Hn | ].
  exact (C4_nan_objective nan_problem nan_self [Fin 0; Fin 0; Fin 0]
           true false Hwf Hr Hn).
Defined.

(** C6, as stated, fails: an infinite component of the raw gradient is not
    replaced with 0 but with the finite number of largest magnitude. *)
Lemma C6_counterexample :
  init nan_problem = Ok nan_self
  /\ snd (raw_obj_grad nan_problem [Fin 0; Fin 0; Fin 0])
     = [PInf; NInf; NaN]
  /\ snd (obj nan_self [Fin 0; Fin 0; Fin 0] true false)
     = Ok (PInf, Some [Fin DBL_MAX; Fin (- DBL_MAX); Fin 0])
  /\ feq (Fin DBL_MAX) (Fin 0) = false
  /\ feq (Fin (- DBL_MAX)) (Fin 0) = false.
Proof.
  repeat split; try reflexivity; vm_compute; reflexivity.
Qed.

(** C6, amended.  With the gradient requested, [obj] returns the raw
    gradient with every NaN replaced with 0, +inf with the largest finite
    number and -inf with its opposite, the finite components unchanged; no
    component of the returned gradient is NaN or infinite. *)
Theorem C6_gradient_finite (p : CUTEstProblem) (self : PCTProblem)
  (x : list float) (nlv : bool) :
  wf_problem p -> reachable p self ->
  exists (f : float) (g : list float),
    snd (obj self x true nlv) = Ok (f, Some g)
    /\ Forall2 (fun r v =>
                  match r with
                  | NaN => v = Fin 0
                  | PInf => v = Fin DBL_MAX
                  | NInf => v = Fin (- DBL_MAX)
                  | Fin q => v = Fin q
                  end) (snd (raw_obj_grad p x)) g
    /\ Forall (fun v => isfinite v = true) g.
Proof.
  intros Hwf Hr.
  destruct (obj_reachable_value p self x true nlv Hwf Hr) as (r & -> & _).
  do 2 eexists. split; [reflexivity | ].
  generalize (snd (raw_obj_grad p x)). intros gr. split.
  - induction gr as [ | a gr IH]; simpl; constructor; auto.
    destruct a; reflexivity.
  - induction gr as [ | a gr IH]; simpl; constructor; auto.
    destruct a; reflexivity.
Qed.

Lemma C6_gradient_finite_witness :
  wf_problem nan_problem /\ reachable nan_problem nan_self
  /\ exists (f : float) (g : list float),
       snd (obj nan_self [Fin 0; Fin 0; Fin 0] true false) = Ok (f, Some g)
       /\ Forall2 (fun r v =>
                     match r with
                     | NaN => v = Fin 0
                     | PInf => v = Fin DBL_MAX
                     | NInf => v = Fin (- DBL_MAX)
                     | Fin q => v = Fin q
                     end)
            (snd (raw_obj_grad nan_problem [Fin 0; Fin 0; Fin 0])) g
       /\ Forall (fun v => isfinite v = true) g.
Proof.
  assert (Hwf : wf_problem nan_problem)
    by (constructor; intros; reflexivity).
  assert (Hr : reachable nan_problem nan_self)
    by (apply reach_init; reflexivity).
  split; [exact Hwf | ]. split; [exact Hr | ].
  exact (C6_gradient_finite nan_problem nan_self [Fin 0; Fin 0; Fin 0]
           false Hwf Hr).
Defined.

(** C9, as stated, fails at NaN: on a problem without constraints the call
    appends NaN to [objectives] and +inf to [residuals]. *)
Lemma C9_counterexample :
  init nan_problem = Ok nan_self
  /\ raw_m nan_problem = 0%nat
  /\ objectives (fst (obj nan_self [Fin 0; Fin 0; Fin 0] false false))
     = objectives nan_self ++ [NaN]
  /\ residuals (fst (obj nan_self [Fin 0; Fin 0; Fin 0] false false))
     = residuals nan_self ++ [PInf]
  /\ NaN <> PInf.
Proof.
  repeat split; try reflexivity. discriminate.
Qed.

(** C9, amended.  On a problem with zero constraints a single [obj] call
    appends one entry to each history; the two entries are the same value,
    the raw objective, whenever that value is not NaN.  (When it is NaN,
    [objectives] receives NaN and [residuals] receives +inf.) *)
Theorem C9_unconstrained_same (p : CUTEstProblem) (self : PCTProblem)
  (x : list float) (gradient nlv : bool) :
  wf_problem p -> reachable p self -> raw_m p = 0%nat ->
  exists o r : float,
    objectives (fst (obj self x gradient nlv)) = objectives self ++ [o]
    /\ residuals (fst (obj self x gradient nlv)) = residuals self ++ [r]
    /\ (isnan (raw_value p x gradient) = false ->
        o = raw_value p x gradient /\ r = o)
    /\ (isnan (raw_value p x gradient) = true -> o = NaN /\ r = PInf).
Proof.
  intros Hwf Hr Hm.
  destruct (obj_reachable_value p self x gradient nlv Hwf Hr)
    as (r & -> & Hres).
  exists (raw_value p x gradient), r.
  split; [reflexivity | ]. split; [reflexivity | ].
  rewrite (Hres Hm). unfold nan_to_inf. split.
  - intros ->. auto.
  - intros Hn. rewrite Hn. split; [now apply isnan_true | reflexivity].
Qed.

Lemma C9_unconstrained_same_witness :
  wf_problem free_problem /\ reachable free_problem free_self
  /\ raw_m free_problem = 0%nat
  /\ isnan (raw_value free_problem [Fin 1; Fin 2] false) = false
  /\ exists o : float,
       objectives (fst (obj free_self [Fin 1; Fin 2] false false))
       = objectives free_self ++ [o]
       /\ residuals (fst (obj free_self [Fin 1; Fin 2] false false))
          = residuals free_self ++ [o]
       /\ o = raw_value free_problem [Fin 1; Fin 2] false.
Proof.
  assert (Hwf : wf_problem free_problem)
    by (constructor; intros; reflexivity).
  assert (Hr : reachable free_problem free_self)
    by (apply reach_init; reflexivity).
  assert (Hm : raw_m free_problem = 0%nat) by reflexivity.
  assert (Hn : isnan (raw_value free_problem [Fin 1; Fin 2] false) = false)
    by reflexivity.
  split; [exact Hwf | ]. split; [exact Hr | ]. split; [exact Hm | ].
  split; [exact Hn | ].
  destruct (C9_unconstrained_same free_problem free_self [Fin 1; Fin 2]
              false false Hwf Hr Hm) as (o & r & Ho & Hres & Hfin & _).
  destruct (Hfin Hn) as [Hov Hro].
  exists o. rewrite Hro in Hres. auto.
Defined.

(** ** The violation measure: sign, zero, and the effect of normalizing *)

Lemma nonneg_linear_max (ls es : list bool) (vs : list float) :
  nonneg (linear_max ls es vs) = true.
Proof. apply nonneg_maximum, nonneg_max_floor0. Qed.

Lemma nonneg_violation_spec (ls es : list bool) (ubs vs : list float)
  (nlv : bool) :
  nonneg (violation_spec ls es ubs vs nlv) = true.
Proof.
  unfold violation_spec, fold_nonlinear. do 2 apply nonneg_maximum.
  destruct nlv.
  - apply nonneg_fdiv; [apply nonneg_linear_max | apply ge1_normalizer].
  - apply nonneg_linear_max.
Qed.

Lemma max_floor0_zero (l : list float) :
  Forall (fun v => fle v (Fin 0) = true) l -> max_floor0 l = Fin 0.
Proof. apply fold_maximum_absorb. Qed.

Lemma violation_spec_zero (ls es : list bool) (ubs vs : list float)
  (nlv : bool) :
  Forall (fun c => feq c (Fin 0) = true) (group true true ls es vs) ->
  Forall (fun c => fle c (Fin 0) = true) (group true false ls es vs) ->
  Forall (fun c => feq c (Fin 0) = true) (group false true ls es vs) ->
  Forall (fun c => fle c (Fin 0) = true) (group false false ls es vs) ->
  (nlv = true -> existsb isnan ubs = false) ->
  feq (violation_spec ls es ubs vs nlv) (Fin 0) = true.
Proof.
  intros H1 H2 H3 H4 Hu.
  assert (Eabs : forall l, Forall (fun c => feq c (Fin 0) = true) l ->
            max_floor0 (map fabs l) = Fin 0).
  { intros l Hl. apply max_floor0_zero, Forall_map.
    eapply Forall_impl; [ | exact Hl]. apply feq_zero_fabs_le. }
  assert (Epos : forall l, Forall (fun c => fle c (Fin 0) = true) l ->
            max_floor0 (map positive_part l) = Fin 0).
  { intros l Hl. apply max_floor0_zero, Forall_map.
    eapply Forall_impl; [ | exact Hl]. apply positive_part_le_zero. }
  unfold violation_spec, fold_nonlinear, linear_max.
  rewrite (Eabs _ H1), (Epos _ H2), (Eabs _ H3), (Epos _ H4).
  change (maximum (Fin 0) (Fin 0)) with (Fin 0).
  assert (Hz : feq (if nlv then fdiv (Fin 0) (normalizer ubs) else Fin 0)
                 (Fin 0) = true).
  { destruct nlv; [ | reflexivity].
    apply feq_zero_fdiv; [reflexivity | apply ge1_normalizer | ].
    rewrite isnan_normalizer. now apply Hu. }
  rewrite !(maximum_zero _ (Fin 0) Hz) by reflexivity. exact Hz.
Qed.

Lemma violation_spec_normalized_le (ls es : list bool) (ubs vs : list float) :
  isnan (violation_spec ls es ubs vs true) = false ->
  fle (violation_spec ls es ubs vs true) (violation_spec ls es ubs vs false)
  = true.
Proof.
  unfold violation_spec, fold_nonlinear.
  rewrite !isnan_maximum. intros H.
  apply orb_false_iff in H as [H HI]. apply orb_false_iff in H as [HL HE].
  apply fle_maximum_mono; [ | exact HI].
  apply fle_maximum_mono; [ | exact HE].
  apply fdiv_le_self; [apply nonneg_linear_max | apply ge1_normalizer | ].
  exact HL.
Qed.

(** C2, as stated, fails when the normalization is set and an upper bound
    of the linear group is NaN: every constraint is satisfied and the
    measure is NaN, not 0. *)
Lemma C2_counterexample :
  init nan_bound_problem = Ok nan_bound_self
  /\ Forall (fun c => feq c (Fin 0) = true)
       (group true true (is_linear_cons nan_bound_problem)
          (is_eq_cons nan_bound_problem) [Fin 0])
  /\ Forall (fun c => fle c (Fin 0) = true)
       (group true false (is_linear_cons nan_bound_problem)
          (is_eq_cons nan_bound_problem) [Fin 0])
  /\ Forall (fun c => feq c (Fin 0) = true)
       (group false true (is_linear_cons nan_bound_problem)
          (is_eq_cons nan_bound_problem) [Fin 0])
  /\ Forall (fun c => fle c (Fin 0) = true)
       (group false false (is_linear_cons nan_bound_problem)
          (is_eq_cons nan_bound_problem) [Fin 0])
  /\ ctr_violations nan_bound_self [Fin 0] true = Ok NaN
  /\ feq NaN (Fin 0) = false.
Proof.
  repeat split; try reflexivity; simpl; repeat constructor.
Qed.

(** C2, amended.  For every constraint-value vector and either setting of
    the flag, [ctr_violations] returns a value that is never negative (it
    is NaN or at least 0); and it returns exactly 0 whenever all
    linear-equality values are 0, all linear-inequality values are <= 0,
    all nonlinear-equality values are 0, all nonlinear-inequality values
    are <= 0 and, when the normalization is set, no upper bound of the
    linear group is NaN. *)
Theorem C2_violation_zero (p : CUTEstProblem) (self : PCTProblem)
  (vs : list float) (nlv : bool) :
  wf_problem p -> reachable p self -> length vs = raw_m p ->
  exists (v : float) (A : list (list float)) (l u : list float),
    constraints_0 self = Ok (LinearConstraint A l u)
    /\ ctr_violations self vs nlv = Ok v
    /\ flt v (Fin 0) = false
    /\ (isnan v = false -> fle (Fin 0) v = true)
    /\ (Forall (fun c => feq c (Fin 0) = true)
          (group true true (is_linear_cons p) (is_eq_cons p) vs) ->
        Forall (fun c => fle c (Fin 0) = true)
          (group true false (is_linear_cons p) (is_eq_cons p) vs) ->
        Forall (fun c => feq c (Fin 0) = true)
          (group false true (is_linear_cons p) (is_eq_cons p) vs) ->
        Forall (fun c => fle c (Fin 0) = true)
          (group false false (is_linear_cons p) (is_eq_cons p) vs) ->
        (nlv = true -> existsb isnan u = false) ->
        feq v (Fin 0) = true).
Proof.
  intros Hwf Hr Hv.
  destruct (reachable_frame p self Hwf Hr) as (Hp & A & l & u & H0 & _).
  pose proof (wf_linear p Hwf) as Hl. pose proof (wf_eq p Hwf) as He.
  subst p.
  exists (violation_spec (is_linear_cons (problem self))
            (is_eq_cons (problem self)) u vs nlv), A, l, u.
  split; [exact H0 | ]. split.
  { apply (ctr_violations_value self (LinearConstraint A l u)); try lia.
    exact H0. }
  split; [apply nonneg_not_lt0, nonneg_violation_spec | ].
  split; [apply nonneg_ge0, nonneg_violation_spec | ].
  apply violation_spec_zero.
Qed.

Lemma C2_violation_zero_witness :
  wf_problem sample /\ reachable sample sample_self
  /\ length [Fin 0] = raw_m sample
  /\ exists v : float,
       ctr_violations sample_self [Fin 0] true = Ok v
       /\ flt v (Fin 0) = false
       /\ feq v (Fin 0) = true.
Proof.
  assert (Hwf : wf_problem sample) by (constructor; intros; reflexivity).
  assert (Hr : reachable sample sample_self)
    by (apply reach_init; reflexivity).
  assert (Hv : length [Fin 0] = raw_m sample) by reflexivity.
  split; [exact Hwf | ]. split; [exact Hr | ]. split; [exact Hv | ].
  destruct (C2_violation_zero sample sample_self [Fin 0] true Hwf Hr Hv)
    as (v & A & l & u & H0 & Hc & Hneg & _ & Hzero).
  exists v. split; [exact Hc | ]. split; [exact Hneg | ].
  apply Hzero; simpl; repeat constructor.
  intros _. vm_compute in H0. injection H0 as _ _ <-. reflexivity.
Defined.

(** C10, as stated, fails on a constraint value that is NaN: both measures
    are NaN, and NaN <= NaN does not hold. *)
Lemma C10_counterexample :
  init sample = Ok sample_self
  /\ length [NaN] = raw_m sample
  /\ ctr_violations sample_self [NaN] true = Ok NaN
  /\ ctr_violations sample_self [NaN] false = Ok NaN
  /\ fle NaN NaN = false.
Proof. repeat split; reflexivity. Qed.

(** C10, amended.  For every constraint-value vector, the violation
    computed with the normalization set is never greater than the one
    computed without it, and it is less than or equal to it whenever it is
    not NaN. *)
Theorem C10_normalized_not_greater (p : CUTEstProblem) (self : PCTProblem)
  (vs : list float) :
  wf_problem p -> reachable p self -> length vs = raw_m p ->
  exists vn vu : float,
    ctr_violations self vs true = Ok vn
    /\ ctr_violations self vs false = Ok vu
    /\ fgt vn vu = false
    /\ (isnan vn = false -> fle vn vu = true).
Proof.
  intros Hwf Hr Hv.
  destruct (reachable_frame p self Hwf Hr) as (Hp & A & l & u & H0 & _).
  pose proof (wf_linear p Hwf) as Hl. pose proof (wf_eq p Hwf) as He.
  subst p.
  exists (violation_spec (is_linear_cons (problem self))
            (is_eq_cons (problem self)) u vs true),
         (violation_spec (is_linear_cons (problem self))
            (is_eq_cons (problem self)) u vs false).
  split.
  { apply (ctr_violations_value self (LinearConstraint A l u)); try lia.
    exact H0. }
  split.
  { apply (ctr_violations_value self (LinearConstraint A l u)); try lia.
    exact H0. }
  split; [ | apply violation_spec_normalized_le].
  unfold fgt.
  destruct (isnan (violation_spec (is_linear_cons (problem self))
                     (is_eq_cons (problem self)) u vs true)) eqn:E.
  - apply isnan_true in E. rewrite E. apply flt_nan_r.
  - apply fle_not_flt. now apply violation_spec_normalized_le.
Qed.

Lemma C10_normalized_not_greater_witness :
  wf_problem sample /\ reachable sample sample_self
  /\ length [Fin 3] = raw_m sample
  /\ exists vn vu : float,
       ctr_violations sample_self [Fin 3] true = Ok vn
       /\ ctr_violations sample_self [Fin 3] false = Ok vu
       /\ fgt vn vu = false
       /\ (isnan vn = false -> fle vn vu = true).
Proof.
  assert (Hwf : wf_problem sample) by (constructor; intros; reflexivity).
  assert (Hr : reachable sample sample_self)
    by (apply reach_init; reflexivity).
  assert (Hv : length [Fin 3] = raw_m sample) by reflexivity.
  split; [exact Hwf | ]. split; [exact Hr | ]. split; [exact Hv | ].
  exact (C10_normalized_not_greater sample sample_self [Fin 3] Hwf Hr Hv).
Defined.

(** * Further properties of [problems.py] *)

(** ** The nonlinear group of [get_constraints] *)

Lemma scatter_repeat (mask : list bool) (d c : float) (k j : nat) :
  length mask = k -> (length mask <= j)%nat ->
  scatter mask (repeat d k) (repeat c j)
  = map (fun e : bool => if e then c else d) mask.
Proof.
  intros <-. revert j.
  induction mask as [ | b mask IH]; intros j Hj; [reflexivity | ].
  simpl in Hj. destruct j as [ | j]; [lia | ].
  destruct b; simpl; f_equal.
  - apply IH. lia.
  - change (c :: repeat c j) with (repeat c (S j)). apply IH. lia.
Qed.

Lemma get_constraints_nonlinear (p : CUTEstProblem) :
  wf_problem p ->
  exists bnd A l u,
    linear_part p = Ok (A, l, u)
    /\ get_constraints p
       = Ok (bnd,
             LinearConstraint A l u ::
             (if all (is_linear_cons p) then []
              else [NonlinearConstraint
                      (fun x => select (logical_not (is_linear_cons p))
                                  (raw_cons p x))
                      (map nl_lower_of
                         (pick (logical_not (is_linear_cons p))
                            (is_eq_cons p)))
                      (zeros
                         (length
                            (pick (logical_not (is_linear_cons p))
                               (is_eq_cons p))))])).
Proof.
  intros Hwf. pose proof (linear_part_ok p Hwf) as Hlin.
  destruct Hwf as [Hl He _ _ _].
  unfold get_constraints. rewrite Hlin. cbn [bind].
  do 4 eexists. split; [reflexivity | ].
  destruct (all (is_linear_cons p)); cbn [negb]; [reflexivity | ].
  unfold assign_const, full. rewrite repeat_length, He, Nat.eqb_refl.
  cbn [bind].
  rewrite select_ok
    by (rewrite length_logical_not, length_scatter, repeat_length; lia).
  cbn [bind].
  rewrite scatter_repeat by lia.
  rewrite !pick_map. unfold zeros_like. rewrite !length_map.
  reflexivity.
Qed.

(** X1.  The constructor returns one descriptor when every constraint is
    linear and two otherwise.  The second one is the nonlinear group: its
    lower bounds are 0 for the equalities and -inf for the inequalities,
    its upper bounds are all 0, and its function returns, at every point,
    the values of the nonlinear constraints, as many as there are bounds. *)
Theorem X1_nonlinear_group (p : CUTEstProblem) :
  wf_problem p ->
  exists (self : PCTProblem) (A : list (list float)) (l u : list float),
    init p = Ok self
    /\ if all (is_linear_cons p)
       then constraints self = [LinearConstraint A l u]
       else exists fn : list float -> result (list float),
           constraints self
           = [LinearConstraint A l u;
              NonlinearConstraint fn
                (map nl_lower_of
                   (pick (logical_not (is_linear_cons p)) (is_eq_cons p)))
                (zeros
                   (length
                      (filter negb (is_linear_cons p))))]
           /\ forall x : list float,
                fn x = Ok (pick (logical_not (is_linear_cons p))
                             (raw_cons p x))
                /\ length (pick (logical_not (is_linear_cons p))
                             (raw_cons p x))
                   = length (filter negb (is_linear_cons p)).
Proof.
  intros Hwf.
  destruct (get_constraints_nonlinear p Hwf) as (bnd & A & l & u & _ & Hg).
  pose proof (wf_linear p Hwf) as Hl. pose proof (wf_eq p Hwf) as He.
  assert (Hcount : forall (B : Type) (v : list B),
            length v = raw_m p ->
            length (pick (logical_not (is_linear_cons p)) v)
            = length (filter negb (is_linear_cons p))).
  { intros B v Hv. rewrite length_pick by (rewrite length_logical_not; lia).
    unfold logical_not. clear.
    induction (is_linear_cons p) as [ | b ls IH]; [reflexivity | ].
    simpl. destruct b; simpl; now rewrite IH. }
  unfold init. rewrite Hg. cbn [bind fst snd].
  eexists. exists A, l, u. split; [reflexivity | ].
  cbn [constraints]. destruct (all (is_linear_cons p)); [reflexivity | ].
  eexists. split.
  - rewrite (Hcount _ (is_eq_cons p) He). reflexivity.
  - intros x. cbn beta. split.
    + apply select_ok. rewrite length_logical_not, (wf_cons p Hwf x). lia.
    + apply Hcount, (wf_cons p Hwf).
Qed.

Lemma X1_nonlinear_group_witness :
  wf_problem mixed
  /\ exists (self : PCTProblem) (fn : list float -> result (list float)),
       init mixed = Ok self
       /\ constraints self
          = [LinearConstraint [[Fin 1; Fin 0]] [NInf] [Fin 2];
             NonlinearConstraint fn [Fin 0] [Fin 0]]
       /\ fn [Fin 3; Fin 1] = Ok [Fin 2].
Proof.
  assert (Hwf : wf_problem mixed) by (constructor; intros; reflexivity).
  split; [exact Hwf | ].
  destruct (X1_nonlinear_group mixed Hwf) as (self & A & l & u & Hs & Hc).
  simpl in Hc. destruct Hc as (fn & Hc & Hfn).
  exists self, fn. split; [exact Hs | ].
  destruct (Hfn [Fin 3; Fin 1]) as [Hv _].
  split; [ | exact Hv].
  rewrite Hc. vm_compute in Hs. injection Hs as <-. simpl in Hc.
  injection Hc as <- <- <- _. reflexivity.
Defined.

(** ** What [obj] returns and records *)

Lemma fle_refl (a : float) : isnan a = false -> fle a a = true.
Proof.
  destruct a as [ | | x | ]; simpl; auto. intros _. qbool. lra.
Qed.

Lemma fle_trans (a b c : float) :
  fle a b = true -> fle b c = true -> fle a c = true.
Proof.
  destruct a as [ | | x | ], b as [ | | y | ], c as [ | | z | ]; simpl; auto;
    try discriminate.
  intros H1 H2. qbool. lra.
Qed.

Lemma isnan_nan_to_inf (f : float) : isnan (nan_to_inf f) = false.
Proof. destruct f; reflexivity. Qed.

(** The penalized value is not below the value it penalizes. *)
Lemma merit_not_below (f v : float) :
  isnan f = false -> nonneg v = true ->
  flt (fadd f (fmul c_1e3 v)) f = false
  /\ (isnan (fadd f (fmul c_1e3 v)) = false ->
      fle f (fadd f (fmul c_1e3 v)) = true).
Proof.
  unfold nonneg, c_1e3.
  destruct f as [ | | x | ], v as [ | | y | ]; simpl; auto; try discriminate;
    intros _ Hy; try (split; [reflexivity | auto]).
  qbool. assert (H : x <= x + inject_Z 1000 * y).
  { assert (0 <= inject_Z 1000 * y);
      [apply Qmult_le_0_compat; [discriminate | exact Hy] | lra]. }
  split.
  - apply negb_false_iff. qbool. exact H.
  - intros _. qbool. exact H.
Qed.

Lemma merit_at_zero (f v : float) :
  isnan f = false -> feq v (Fin 0) = true ->
  fgt v c_1e_2 = false /\ feq (fadd f (fmul c_1e3 v)) f = true.
Proof.
  unfold feq, fgt, c_1e3, c_1e_2. intros Hf Hv.
  apply andb_true_iff in Hv as [H1 H2].
  destruct f as [ | | x | ], v as [ | | y | ]; simpl in *; auto;
    try discriminate;
    qbool; (split; [apply negb_false_iff; qbool; lra | ]);
    try reflexivity.
  apply andb_true_iff.
  assert (E : inject_Z 1000 * y == 0)
    by (rewrite (Qle_antisym _ _ H1 H2); ring).
  split; qbool; rewrite E; lra.
Qed.

(** The state and the result of [obj] on a reachable state, with the
    measure written out. *)
Lemma obj_reachable_full (p : CUTEstProblem) (self : PCTProblem)
  (x : list float) (g nlv : bool) :
  wf_problem p -> reachable p self ->
  exists (A : list (list float)) (l u : list float),
    constraints_0 self = Ok (LinearConstraint A l u)
    /\ ctr_violations self (cons self x) nlv
       = Ok (violation_spec (is_linear_cons p) (is_eq_cons p) u
               (raw_cons p x) nlv)
    /\ obj self x g nlv
       = (with_residuals
            (with_objectives self (objectives self ++ [raw_value p x g]))
            (residuals self ++
               [if 0 <? raw_m p
                then if fgt (violation_spec (is_linear_cons p) (is_eq_cons p)
                               u (raw_cons p x) nlv) c_1e_2
                     then PInf
                     else fadd (nan_to_inf (raw_value p x g))
                            (fmul c_1e3
                               (violation_spec (is_linear_cons p)
                                  (is_eq_cons p) u (raw_cons p x) nlv))
                else nan_to_inf (raw_value p x g)]),
          Ok (nan_to_inf (raw_value p x g),
              if g then Some (nan_to_num (snd (raw_obj_grad p x)))
              else None)).
Proof.
  intros Hwf Hr.
  destruct (reachable_frame p self Hwf Hr) as (Hp & A & l & u & H0 & _).
  pose proof (wf_linear p Hwf) as Hl. pose proof (wf_eq p Hwf) as He.
  pose proof (wf_cons p Hwf x) as Hc. subst p.
  exists A, l, u. split; [exact H0 | ]. split.
  - apply (ctr_violations_value self (LinearConstraint A l u));
      unfold cons; try lia. exact H0.
  - apply (obj_value self (LinearConstraint A l u) x g nlv);
      try exact H0; lia.
Qed.

(** X2.  [obj] returns the objective value with NaN replaced with +inf, and
    never the merit value: what it returns is never NaN and is the same in
    every reachable state and for either setting of the normalization
    flag. *)
Theorem X2_obj_return (p : CUTEstProblem) (self self' : PCTProblem)
  (x : list float) (gradient nlv nlv' : bool) :
  wf_problem p -> reachable p self -> reachable p self' ->
  exists (f : float) (g : option (list float)),
    snd (obj self x gradient nlv) = Ok (f, g)
    /\ f = nan_to_inf (raw_value p x gradient)
    /\ isnan f = false
    /\ snd (obj self' x gradient nlv') = Ok (f, g).
Proof.
  intros Hwf Hr Hr'.
  destruct (obj_reachable_value p self x gradient nlv Hwf Hr) as (r & -> & _).
  destruct (obj_reachable_value p self' x gradient nlv' Hwf Hr')
    as (r' & -> & _).
  do 2 eexists. split; [reflexivity | ]. split; [reflexivity | ].
  split; [apply isnan_nan_to_inf | reflexivity].
Qed.

Lemma X2_obj_return_witness :
  wf_problem mixed
  /\ exists (s0 : PCTProblem) (f : float) (g : option (list float)),
       init mixed = Ok s0
       /\ snd (obj s0 [Fin 3; Fin 1] false false) = Ok (f, g)
       /\ f = nan_to_inf (raw_value mixed [Fin 3; Fin 1] false)
       /\ isnan f = false
       /\ snd (obj (fst (obj s0 [Fin 0; Fin 0] true true))
                 [Fin 3; Fin 1] false true) = Ok (f, g).
Proof.
  assert (Hwf : wf_problem mixed) by (constructor; intros; reflexivity).
  split; [exact Hwf | ].
  destruct (init_ok mixed Hwf) as (s0 & _ & _ & _ & Hs & _).
  assert (Hr : reachable mixed s0) by (apply reach_init; exact Hs).
  exists s0.
  destruct (X2_obj_return mixed s0 (fst (obj s0 [Fin 0; Fin 0] true true))
              [Fin 3; Fin 1] false false true Hwf Hr
              (reach_obj mixed s0 [Fin 0; Fin 0] true true Hr))
    as (f & g & H).
  exists f, g. split; [exact Hs | exact H].
Defined.

(** X3.  The merit value appended to [residuals] is never below the value
    that the call returns: it is NaN or at least that value. *)
Theorem X3_merit_not_below_objective (p : CUTEstProblem) (self : PCTProblem)
  (x : list float) (gradient nlv : bool) :
  wf_problem p -> reachable p self ->
  exists (f r : float) (g : option (list float)),
    snd (obj self x gradient nlv) = Ok (f, g)
    /\ residuals (fst (obj self x gradient nlv)) = residuals self ++ [r]
    /\ flt r f = false
    /\ (isnan r = false -> fle f r = true).
Proof.
  intros Hwf Hr.
  destruct (obj_reachable_full p self x gradient nlv Hwf Hr)
    as (A & l & u & _ & _ & ->).
  do 3 eexists. split; [reflexivity | ]. split; [reflexivity | ].
  pose proof (isnan_nan_to_inf (raw_value p x gradient)) as Hf.
  set (f := nan_to_inf (raw_value p x gradient)) in *.
  set (v := violation_spec _ _ _ _ _).
  assert (Hself : flt f f = false /\ (isnan f = false -> fle f f = true)).
  { split; [ | apply fle_refl]. apply fle_not_flt, fle_refl, Hf. }
  destruct (0 <? raw_m p); [ | exact Hself].
  destruct (fgt v c_1e_2).
  - split; [destruct f; try reflexivity; discriminate | ].
    intros _. destruct f; try reflexivity; discriminate.
  - apply merit_not_below; [exact Hf | apply nonneg_violation_spec].
Qed.

Lemma X3_merit_not_below_objective_witness :
  wf_problem mixed
  /\ exists (s0 : PCTProblem) (f r : float) (g : option (list float)),
       init mixed = Ok s0
       /\ snd (obj s0 [Fin 2; Fin (1 # 2)] false false) = Ok (f, g)
       /\ residuals (fst (obj s0 [Fin 2; Fin (1 # 2)] false false))
          = residuals s0 ++ [r]
       /\ flt r f = false
       /\ (isnan r = false -> fle f r = true).
Proof.
  assert (Hwf : wf_problem mixed) by (constructor; intros; reflexivity).
  split; [exact Hwf | ].
  destruct (init_ok mixed Hwf) as (s0 & _ & _ & _ & Hs & _).
  assert (Hr : reachable mixed s0) by (apply reach_init; exact Hs).
  exists s0.
  destruct (X3_merit_not_below_objective mixed s0 [Fin 2; Fin (1 # 2)]
              false false Hwf Hr) as (f & r & g & H).
  exists f, r, g. split; [exact Hs | exact H].
Defined.

(** X4.  At a point where the violation measure is zero, the merit value
    appended to [residuals] equals the value that the call returns. *)
Theorem X4_merit_at_feasible (p : CUTEstProblem) (self : PCTProblem)
  (x : list float) (gradient nlv : bool) (v : float) :
  wf_problem p -> reachable p self ->
  ctr_violations self (cons self x) nlv = Ok v -> feq v (Fin 0) = true ->
  exists (f r : float) (g : option (list float)),
    snd (obj self x gradient nlv) = Ok (f, g)
    /\ residuals (fst (obj self x gradient nlv)) = residuals self ++ [r]
    /\ feq r f = true.
Proof.
  intros Hwf Hr Hv Hz.
  destruct (obj_reachable_full p self x gradient nlv Hwf Hr)
    as (A & l & u & _ & Hc & ->).
  rewrite Hc in Hv. injection Hv as Hv. rewrite Hv.
  do 3 eexists. split; [reflexivity | ]. split; [reflexivity | ].
  pose proof (isnan_nan_to_inf (raw_value p x gradient)) as Hf.
  set (f := nan_to_inf (raw_value p x gradient)) in *.
  destruct (0 <? raw_m p).
  - destruct (merit_at_zero f v Hf Hz) as [-> E]. exact E.
  - unfold feq. now rewrite fle_refl.
Qed.

Lemma X4_merit_at_feasible_witness :
  wf_problem mixed
  /\ exists (s0 : PCTProblem) (f r : float) (g : option (list float)),
       init mixed = Ok s0
       /\ ctr_violations s0 (cons s0 [Fin 2; Fin (1 # 2)]) false
          = Ok (Fin 0)
       /\ snd (obj s0 [Fin 2; Fin (1 # 2)] false false) = Ok (f, g)
       /\ residuals (fst (obj s0 [Fin 2; Fin (1 # 2)] false false))
          = residuals s0 ++ [r]
       /\ feq r f = true.
Proof.
  assert (Hwf : wf_problem mixed) by (constructor; intros; reflexivity).
  split; [exact Hwf | ].
  destruct (init_ok mixed Hwf) as (s0 & _ & _ & _ & Hs & _).
  assert (Hr : reachable mixed s0) by (apply reach_init; exact Hs).
  assert (Hv : ctr_violations s0 (cons s0 [Fin 2; Fin (1 # 2)]) false
               = Ok (Fin 0)).
  { vm_compute in Hs. injection Hs as <-. reflexivity. }
  exists s0.
  destruct (X4_merit_at_feasible mixed s0 [Fin 2; Fin (1 # 2)] false false
              (Fin 0) Hwf Hr Hv eq_refl) as (f & r & g & H).
  exists f, r, g. split; [exact Hs | ]. split; [exact Hv | exact H].
Defined.

(** ** Sequences of calls, and failures *)

Lemma reachable_run (p : CUTEstProblem) (self : PCTProblem)
  (calls : list call) :
  reachable p self -> reachable p (run self calls).
Proof.
  revert self. induction calls as [ | c calls IH]; intros self Hr; simpl.
  - exact Hr.
  - apply IH. unfold obj_call. now apply reach_obj.
Qed.

(** X5.  After a sequence of [obj] calls, [objectives] is the previous
    history followed by the raw objective values of the calls, in call
    order, and [residuals] has grown by one entry per call. *)
Theorem X5_history_trace (p : CUTEstProblem) (self : PCTProblem)
  (calls : list call) :
  wf_problem p -> reachable p self ->
  objectives (run self calls)
  = objectives self
    ++ map (fun c : call => raw_value p (fst (fst c)) (snd (fst c))) calls
  /\ length (residuals (run self calls))
     = (length (residuals self) + length calls)%nat.
Proof.
  intros Hwf. revert self.
  induction calls as [ | c calls IH]; intros self Hr; simpl.
  - rewrite app_nil_r. split; [reflexivity | lia].
  - destruct c as [[x g] nlv].
    assert (Hr' : reachable p (obj_call self (x, g, nlv)))
      by (unfold obj_call; now apply reach_obj).
    destruct (IH _ Hr') as [Ho Hres]. rewrite Ho, Hres.
    unfold obj_call. cbn [fst snd].
    destruct (obj_reachable_value p self x g nlv Hwf Hr) as (r & -> & _).
    cbn [fst objectives residuals with_residuals with_objectives].
    rewrite <- app_assoc, length_app. simpl. split; [reflexivity | lia].
Qed.

Lemma X5_history_trace_witness :
  wf_problem mixed
  /\ exists s0 : PCTProblem,
       init mixed = Ok s0
       /\ objectives
            (run s0 [([Fin 1; Fin 2], false, false);
                     ([Fin 0; Fin 0], true, true)])
          = [Fin 3; Fin 0]
       /\ length
            (residuals
               (run s0 [([Fin 1; Fin 2], false, false);
                        ([Fin 0; Fin 0], true, true)]))
          = 2%nat.
Proof.
  assert (Hwf : wf_problem mixed) by (constructor; intros; reflexivity).
  split; [exact Hwf | ].
  destruct (init_ok mixed Hwf) as (s0 & _ & _ & _ & Hs & _ & Ho & Hres & _).
  assert (Hr : reachable mixed s0) by (apply reach_init; exact Hs).
  exists s0. split; [exact Hs | ].
  destruct (X5_history_trace mixed s0
              [([Fin 1; Fin 2], false, false); ([Fin 0; Fin 0], true, true)]
              Hwf Hr) as [H1 H2].
  rewrite H1, H2, Ho, Hres. split; reflexivity.
Defined.

Lemma ctr_violations_wrong_length (p : CUTEstProblem) (self : PCTProblem)
  (vs : list float) (nlv : bool) :
  problem self = p ->
  length (is_linear_cons p) = raw_m p -> length (is_eq_cons p) = raw_m p ->
  length vs <> raw_m p ->
  ctr_violations self vs nlv = Raise IndexError.
Proof.
  intros <- Hl He Hv. unfold ctr_violations.
  set (ls := is_linear_cons (problem self)) in *.
  set (es := is_eq_cons (problem self)) in *.
  rewrite (logical_and_ok ls es) by lia. cbn [bind].
  rewrite logical_and_ok by lens. cbn [bind].
  rewrite logical_and_ok by lens. cbn [bind].
  rewrite logical_and_ok by lens. cbn [bind].
  unfold select at 1.
  assert (E : (length (zip_and ls es) =? length vs) = false).
  { apply Nat.eqb_neq. rewrite length_zip_and. lia. }
  rewrite E. reflexivity.
Qed.



(** X7.  [obj] is not atomic.  When the provider's constraint vector at x
    does not have one value per constraint, the call raises [IndexError]
    after the objective has been appended: [objectives] has grown by one
    entry and [residuals] is unchanged. *)
Theorem X7_obj_failure_state (p : CUTEstProblem) (self : PCTProblem)
  (x : list float) (gradient nlv : bool) :
  problem self = p ->
  length (is_linear_cons p) = raw_m p -> length (is_eq_cons p) = raw_m p ->
  (0 < raw_m p)%nat -> length (raw_cons p x) <> raw_m p ->
  snd (obj self x gradient nlv) = Raise IndexError
  /\ objectives (fst (obj self x gradient nlv))
     = objectives self ++ [raw_value p x gradient]
  /\ residuals (fst (obj self x gradient nlv)) = residuals self.
Proof.
  intros <- Hl He Hm Hc. unfold obj.
  set (p := problem self) in *.
  assert (E : (if gradient
               then let '(f0, g0) := raw_obj_grad p x in
                    (f0, Some (nan_to_num g0))
               else (raw_obj p x, None))
              = (raw_value p x gradient,
                 if gradient then Some (nan_to_num (snd (raw_obj_grad p x)))
                 else None)).
  { unfold raw_value. destruct gradient; [destruct (raw_obj_grad p x) | ];
      reflexivity. }
  rewrite E. clear E.
  apply Nat.ltb_lt in Hm. rewrite Hm.
  rewrite (ctr_violations_wrong_length p _ (cons _ x) nlv);
    [auto | reflexivity | exact Hl | exact He | exact Hc].
Qed.

Lemma X7_obj_failure_state_witness :
  init short_cons = Ok short_self
  /\ length (is_linear_cons short_cons) = raw_m short_cons
  /\ length (is_eq_cons short_cons) = raw_m short_cons
  /\ (0 < raw_m short_cons)%nat
  /\ length (raw_cons short_cons [Fin 1; Fin 2]) <> raw_m short_cons
  /\ snd (obj short_self [Fin 1; Fin 2] false false) = Raise IndexError
  /\ objectives (fst (obj short_self [Fin 1; Fin 2] false false))
     = objectives short_self ++ [raw_value short_cons [Fin 1; Fin 2] false]
  /\ residuals (fst (obj short_self [Fin 1; Fin 2] false false))
     = residuals short_self.
Proof.
  assert (Hm : (0 < raw_m short_cons)%nat) by (simpl; lia).
  assert (Hc : length (raw_cons short_cons [Fin 1; Fin 2])
               <> raw_m short_cons) by (simpl; lia).
  split; [reflexivity | ].
  split; [reflexivity | ]. split; [reflexivity | ]. split; [exact Hm | ].
  split; [exact Hc | ].
  exact (X7_obj_failure_state short_cons short_self [Fin 1; Fin 2]
           false false eq_refl eq_refl eq_refl Hm Hc).
Defined.

Lemma obj_shape (self : PCTProblem) (x : list float) (g nlv : bool) :
  exists o r : list float,
    fst (obj self x g nlv) = with_residuals (with_objectives self o) r.
Proof.
  unfold obj.
  destruct g; [destruct (raw_obj_grad (problem self) x) as [f gr] | ];
    (destruct (0 <? raw_m (problem self));
      [ destruct (ctr_violations _ _ _) as [vlt | e];
        [ destruct (fgt vlt c_1e_2) | ] | ]);
    cbn [fst];
    first [ do 2 eexists; reflexivity
          | eexists; exists (residuals self); reflexivity ].
Qed.

(** X8.  [clear_memory] brings every reachable state back to the state
    that the constructor returned: [obj] changes nothing but the two
    histories. *)
Theorem X8_clear_memory_resets (p : CUTEstProblem) (s0 self : PCTProblem) :
  init p = Ok s0 -> reachable p self -> clear_memory self = s0.
Proof.
  intros Hs Hr.
  induction Hr as [self Hi | self x g nlv _ IH | self _ IH].
  - rewrite Hs in Hi. injection Hi as <-.
    unfold init in Hs. destruct (get_constraints p) as [bc | e];
      cbn [bind] in Hs; [ | discriminate].
    injection Hs as <-. reflexivity.
  - destruct (obj_shape self x g nlv) as (o & r & ->). exact IH.
  - exact IH.
Qed.

Lemma X8_clear_memory_resets_witness :
  exists s0 : PCTProblem,
    init mixed = Ok s0
    /\ reachable mixed
         (run s0 [([Fin 1; Fin 2], false, false);
                  ([Fin 0; Fin 0], true, true)])
    /\ clear_memory
         (run s0 [([Fin 1; Fin 2], false, false);
                  ([Fin 0; Fin 0], true, true)]) = s0.
Proof.
  assert (Hwf : wf_problem mixed) by (constructor; intros; reflexivity).
  destruct (init_ok mixed Hwf) as (s0 & _ & _ & _ & Hs & _).
  assert (Hr : reachable mixed
                 (run s0 [([Fin 1; Fin 2], false, false);
                          ([Fin 0; Fin 0], true, true)])).
  { apply reachable_run, reach_init, Hs. }
  exists s0. split; [exact Hs | ]. split; [exact Hr | ].
  exact (X8_clear_memory_resets mixed s0 _ Hs Hr).
Defined.

(** ** The unnormalized measure *)

Lemma fle_maximum_l (a b : float) :
  isnan (maximum a b) = false -> fle a (maximum a b) = true.
Proof.
  unfold maximum, fge.
  destruct a as [ | | x | ], b as [ | | y | ]; simpl; auto; try discriminate;
    intros _; qsplit; qbool; lra.
Qed.

Lemma fle_maximum_r (a b : float) :
  isnan (maximum a b) = false -> fle b (maximum a b) = true.
Proof.
  unfold maximum, fge.
  destruct a as [ | | x | ], b as [ | | y | ]; simpl; auto; try discriminate;
    intros _; qsplit; qbool; lra.
Qed.

Lemma fold_maximum_dominates (l : list float) (i : float) :
  isnan (fold_left maximum l i) = false ->
  fle i (fold_left maximum l i) = true
  /\ Forall (fun c => fle c (fold_left maximum l i) = true) l.
Proof.
  revert i. induction l as [ | v l IH]; intros i H; simpl in *.
  - split; [now apply fle_refl | constructor].
  - destruct (IH _ H) as [H1 H2].
    assert (Hm : isnan (maximum i v) = false).
    { rewrite isnan_fold_maximum in H. now apply orb_false_iff in H as [H _]. }
    split; [ | constructor; [ | exact H2]].
    + eapply fle_trans; [apply fle_maximum_l, Hm | exact H1].
    + eapply fle_trans; [apply fle_maximum_r, Hm | exact H1].
Qed.

Lemma max_floor0_dominates (l : list float) (v : float) :
  isnan v = false -> fle (max_floor0 l) v = true ->
  Forall (fun c => fle c v = true) l.
Proof.
  intros Hv Hle.
  assert (Hn : isnan (max_floor0 l) = false)
    by (destruct (max_floor0 l); auto; discriminate).
  destruct (fold_maximum_dominates l (Fin 0) Hn) as [_ H].
  eapply Forall_impl; [ | exact H].
  intros c Hc. cbn beta in Hc. eapply fle_trans; [exact Hc | exact Hle].
Qed.

(** The four maxima of the unnormalized measure are below it. *)
Lemma violation_spec_parts (ls es : list bool) (ubs vs : list float) :
  isnan (violation_spec ls es ubs vs false) = false ->
  let v := violation_spec ls es ubs vs false in
  fle (max_floor0 (map fabs (group true true ls es vs))) v = true
  /\ fle (max_floor0 (group true false ls es vs)) v = true
  /\ fle (max_floor0 (map fabs (group false true ls es vs))) v = true
  /\ fle (max_floor0 (group false false ls es vs)) v = true.
Proof.
  unfold violation_spec, fold_nonlinear, linear_max.
  unfold max_floor0. rewrite !fold_maximum_positive_part by reflexivity.
  fold (max_floor0 (map fabs (group true true ls es vs))).
  fold (max_floor0 (group true false ls es vs)).
  fold (max_floor0 (map fabs (group false true ls es vs))).
  fold (max_floor0 (group false false ls es vs)).
  set (F1 := max_floor0 _). set (F2 := max_floor0 _).
  set (F3 := max_floor0 _). set (F4 := max_floor0 _).
  intros H. cbn zeta.
  pose proof H as H'. rewrite isnan_maximum in H'.
  apply orb_false_iff in H' as [H3 _].
  pose proof H3 as H3'. rewrite isnan_maximum in H3'.
  apply orb_false_iff in H3' as [H2 _].
  pose proof (fle_maximum_l _ _ H) as L3.
  pose proof (fle_maximum_r _ _ H) as R4.
  pose proof (fle_maximum_l _ _ H3) as L2.
  pose proof (fle_maximum_r _ _ H3) as R3.
  pose proof (fle_maximum_l _ _ H2) as L1.
  pose proof (fle_maximum_r _ _ H2) as R2.
  repeat split.
  - eapply fle_trans; [exact L1 | ]. eapply fle_trans; [exact L2 | exact L3].
  - eapply fle_trans; [exact R2 | ]. eapply fle_trans; [exact L2 | exact L3].
  - eapply fle_trans; [exact R3 | exact L3].
  - exact R4.
Qed.

Lemma nth_in_group (l e : bool) (ls es : list bool) (vs : list float)
  (i : nat) (c : float) :
  nth_error ls i = Some l -> nth_error es i = Some e ->
  nth_error vs i = Some c ->
  In c (group l e ls es vs).
Proof.
  revert es vs i.
  induction ls as [ | l0 ls IH]; intros [ | e0 es] [ | v0 vs] [ | i];
    simpl; try discriminate.
  - intros Hl He Hc.
    assert (l0 = l) by congruence. assert (e0 = e) by congruence.
    assert (v0 = c) by congruence. subst.
    rewrite !Bool.eqb_reflx. simpl. now left.
  - intros Hl He Hc.
    destruct (Bool.eqb l0 l && Bool.eqb e0 e); [right | ]; eauto.
Qed.

Lemma group_in_nth (l e : bool) (ls es : list bool) (vs : list float)
  (c : float) :
  In c (group l e ls es vs) ->
  exists i : nat,
    nth_error ls i = Some l /\ nth_error es i = Some e
    /\ nth_error vs i = Some c.
Proof.
  revert es vs.
  induction ls as [ | l0 ls IH]; intros [ | e0 es] [ | v0 vs];
    simpl; try contradiction.
  destruct (Bool.eqb l0 l && Bool.eqb e0 e) eqn:E.
  - intros [<- | H].
    + apply andb_true_iff in E as [E1 E2].
      apply Bool.eqb_prop in E1, E2. subst. exists 0%nat. auto.
    + destruct (IH _ _ H) as (i & H1 & H2 & H3). exists (S i). auto.
  - intros H. destruct (IH _ _ H) as (i & H1 & H2 & H3). exists (S i). auto.
Qed.

Lemma fabs_le_zero (c : float) :
  fle (fabs c) (Fin 0) = true -> feq c (Fin 0) = true.
Proof.
  unfold feq. destruct c as [ | | x | ]; simpl; auto.
  intros H. qbool. apply andb_true_iff. split; qbool.
  - revert H. apply Qabs_case; lra.
  - revert H. apply Qabs_case; lra.
Qed.

(** The violation of one constraint: |c| for an equality, c for an
    inequality (its positive part once compared with a measure >= 0). *)
Lemma unnormalized_dominates (ls es : list bool) (ubs vs : list float)
  (i : nat) (l e : bool) (c : float) :
  isnan (violation_spec ls es ubs vs false) = false ->
  nth_error ls i = Some l -> nth_error es i = Some e ->
  nth_error vs i = Some c ->
  fle (if e then fabs c else c) (violation_spec ls es ubs vs false) = true.
Proof.
  intros Hn Hl He Hc.
  destruct (violation_spec_parts ls es ubs vs Hn) as (P1 & P2 & P3 & P4).
  pose proof (nth_in_group l e ls es vs i c Hl He Hc) as Hin.
  destruct l, e.
  - pose proof (max_floor0_dominates _ _ Hn P1) as HF.
    rewrite Forall_forall in HF. apply HF, in_map, Hin.
  - pose proof (max_floor0_dominates _ _ Hn P2) as HF.
    rewrite Forall_forall in HF. apply HF, Hin.
  - pose proof (max_floor0_dominates _ _ Hn P3) as HF.
    rewrite Forall_forall in HF. apply HF, in_map, Hin.
  - pose proof (max_floor0_dominates _ _ Hn P4) as HF.
    rewrite Forall_forall in HF. apply HF, Hin.
Qed.

Lemma nth_error_same_length (A B : Type) (la : list A) (lb' : list B)
  (i : nat) (b : B) :
  length la = length lb' -> nth_error lb' i = Some b ->
  exists a : A, nth_error la i = Some a.
Proof.
  intros Hlen Hb.
  destruct (nth_error la i) as [a | ] eqn:E; [eauto | ].
  apply nth_error_None in E.
  assert (nth_error lb' i <> None) by congruence.
  apply nth_error_Some in H. lia.
Qed.

Lemma isnan_unnormalized (ls es : list bool) (ubs vs : list float) :
  isnan (violation_spec ls es ubs vs false)
  = existsb isnan (group true true ls es vs)
    || existsb isnan (group true false ls es vs)
    || existsb isnan (group false true ls es vs)
    || existsb isnan (group false false ls es vs).
Proof.
  unfold violation_spec, fold_nonlinear, linear_max, max_floor0.
  rewrite !fold_maximum_positive_part by reflexivity.
  rewrite !isnan_maximum, !isnan_fold_maximum, !existsb_isnan_fabs.
  reflexivity.
Qed.

Lemma isnan_unnormalized_values (ls es : list bool) (ubs vs : list float) :
  length ls = length vs -> length es = length vs ->
  isnan (violation_spec ls es ubs vs false) = existsb isnan vs.
Proof.
  intros Hl He. rewrite isnan_unnormalized.
  apply Bool.eq_iff_eq_true.
  rewrite !orb_true_iff, !existsb_exists. split.
  - assert (G : forall l e,
              (exists c, In c (group l e ls es vs) /\ isnan c = true) ->
              exists c, In c vs /\ isnan c = true).
    { intros l e (c & Hin & Hc).
      destruct (group_in_nth _ _ _ _ _ _ Hin) as (i & _ & _ & Hi).
      exists c. split; [eapply nth_error_In; eauto | exact Hc]. }
    intros [[[H | H] | H] | H]; eapply G; eauto.
  - intros (c & Hin & Hc).
    destruct (In_nth_error _ _ Hin) as (i & Hi).
    destruct (nth_error_same_length _ _ ls vs i c Hl Hi) as (l & Hli).
    destruct (nth_error_same_length _ _ es vs i c He Hi) as (e & Hei).
    pose proof (nth_in_group l e ls es vs i c Hli Hei Hi) as Hg.
    destruct l, e; eauto 8.
Qed.

(** X9.  Without normalization the measure, when it is not NaN, is at
    least the violation of every single constraint: |c| for an equality,
    c for an inequality. *)
Theorem X9_violation_dominates (p : CUTEstProblem) (self : PCTProblem)
  (vs : list float) (i : nat) (e : bool) (c : float) :
  wf_problem p -> reachable p self -> length vs = raw_m p ->
  nth_error (is_eq_cons p) i = Some e -> nth_error vs i = Some c ->
  exists v : float,
    ctr_violations self vs false = Ok v
    /\ (isnan v = false -> fle (if e then fabs c else c) v = true).
Proof.
  intros Hwf Hr Hv He Hc.
  destruct (reachable_frame p self Hwf Hr) as (Hp & A & l & u & H0 & _).
  pose proof (wf_linear p Hwf) as Hll. pose proof (wf_eq p Hwf) as Hle.
  subst p. eexists. split.
  { apply (ctr_violations_value self (LinearConstraint A l u)); try lia.
    exact H0. }
  intros Hn.
  destruct (nth_error_same_length _ _ (is_linear_cons (problem self)) vs i c
              ltac:(lia) Hc) as (li & Hli).
  exact (unnormalized_dominates _ _ _ _ i li e c Hn Hli He Hc).
Qed.

Lemma X9_violation_dominates_witness :
  wf_problem mixed
  /\ exists (s0 : PCTProblem) (v : float),
       init mixed = Ok s0
       /\ ctr_violations s0 [Fin 1; Fin (-3)] false = Ok v
       /\ isnan v = false
       /\ fle (fabs (Fin (-3))) v = true.
Proof.
  assert (Hwf : wf_problem mixed) by (constructor; intros; reflexivity).
  split; [exact Hwf | ].
  destruct (init_ok mixed Hwf) as (s0 & _ & _ & _ & Hs & _).
  assert (Hr : reachable mixed s0) by (apply reach_init; exact Hs).
  destruct (X9_violation_dominates mixed s0 [Fin 1; Fin (-3)] 1 true
              (Fin (-3)) Hwf Hr eq_refl eq_refl eq_refl) as (v & Hv & Hd).
  exists s0, v. split; [exact Hs | ]. split; [exact Hv | ].
  assert (Hn : isnan v = false).
  { vm_compute in Hs. injection Hs as <-. vm_compute in Hv.
    injection Hv as <-. reflexivity. }
  split; [exact Hn | exact (Hd Hn)].
Defined.

(** X10.  Without normalization the measure is zero exactly at the
    feasible vectors: it equals 0 if and only if every equality value is 0
    and every inequality value is at most 0. *)
Theorem X10_zero_iff_feasible (p : CUTEstProblem) (self : PCTProblem)
  (vs : list float) :
  wf_problem p -> reachable p self -> length vs = raw_m p ->
  exists v : float,
    ctr_violations self vs false = Ok v
    /\ (feq v (Fin 0) = true
        <-> forall (i : nat) (e : bool) (c : float),
              nth_error (is_eq_cons p) i = Some e ->
              nth_error vs i = Some c ->
              (if e then feq c (Fin 0) else fle c (Fin 0)) = true).
Proof.
  intros Hwf Hr Hv.
  destruct (reachable_frame p self Hwf Hr) as (Hp & A & l & u & H0 & _).
  pose proof (wf_linear p Hwf) as Hll. pose proof (wf_eq p Hwf) as Hle.
  subst p. eexists. split.
  { apply (ctr_violations_value self (LinearConstraint A l u)); try lia.
    exact H0. }
  cbn [ub].
  set (ls := is_linear_cons (problem self)) in *.
  set (es := is_eq_cons (problem self)) in *.
  split.
  - intros Hz i e c He Hc.
    assert (Hn : isnan (violation_spec ls es u vs false) = false).
    { revert Hz. destruct (violation_spec ls es u vs false); simpl;
        intros Hz; [discriminate | reflexivity ..]. }
    destruct (nth_error_same_length _ _ ls vs i c ltac:(lia) Hc) as (li & Hli).
    pose proof (unnormalized_dominates ls es u vs i li e c Hn Hli He Hc)
      as Hd.
    unfold feq in Hz. apply andb_true_iff in Hz as [Hz _].
    pose proof (fle_trans _ _ _ Hd Hz) as Hle0.
    destruct e; [now apply fabs_le_zero | exact Hle0].
  - intros Hall.
    assert (G : forall lb' e : bool,
              Forall (fun c : float =>
                        (if e then feq c (Fin 0) else fle c (Fin 0)) = true)
                (group lb' e ls es vs)).
    { intros lb' e. apply Forall_forall. intros c Hin.
      destruct (group_in_nth _ _ _ _ _ _ Hin) as (i & _ & He & Hc).
      exact (Hall i e c He Hc). }
    apply violation_spec_zero;
      [exact (G true true) | exact (G true false) | exact (G false true)
       | exact (G false false) | discriminate].
Qed.

Lemma X10_zero_iff_feasible_witness :
  wf_problem mixed
  /\ exists (s0 : PCTProblem) (v : float),
       init mixed = Ok s0
       /\ ctr_violations s0 [Fin (-1); Fin 0] false = Ok v
       /\ feq v (Fin 0) = true.
Proof.
  assert (Hwf : wf_problem mixed) by (constructor; intros; reflexivity).
  split; [exact Hwf | ].
  destruct (init_ok mixed Hwf) as (s0 & _ & _ & _ & Hs & _).
  assert (Hr : reachable mixed s0) by (apply reach_init; exact Hs).
  destruct (X10_zero_iff_feasible mixed s0 [Fin (-1); Fin 0] Hwf Hr eq_refl)
    as (v & Hv & Hiff).
  exists s0, v. split; [exact Hs | ]. split; [exact Hv | ].
  apply Hiff. intros [ | [ | i]] e c He Hc; simpl in He, Hc.
  - injection He as <-. injection Hc as <-. reflexivity.
  - injection He as <-. injection Hc as <-. reflexivity.
  - destruct i; discriminate.
Defined.

(** X11.  Without normalization the measure is NaN exactly when some
    constraint value is NaN. *)
Theorem X11_nan_iff_nan_value (p : CUTEstProblem) (self : PCTProblem)
  (vs : list float) :
  wf_problem p -> reachable p self -> length vs = raw_m p ->
  exists v : float,
    ctr_violations self vs false = Ok v
    /\ isnan v = existsb isnan vs.
Proof.
  intros Hwf Hr Hv.
  destruct (reachable_frame p self Hwf Hr) as (Hp & A & l & u & H0 & _).
  pose proof (wf_linear p Hwf) as Hll. pose proof (wf_eq p Hwf) as Hle.
  subst p. eexists. split.
  { apply (ctr_violations_value self (LinearConstraint A l u)); try lia.
    exact H0. }
  apply isnan_unnormalized_values; lia.
Qed.

Lemma X11_nan_iff_nan_value_witness :
  wf_problem mixed
  /\ exists (s0 : PCTProblem) (v : float),
       init mixed = Ok s0
       /\ ctr_violations s0 [Fin 1; NaN] false = Ok v
       /\ isnan v = existsb isnan [Fin 1; NaN].
Proof.
  assert (Hwf : wf_problem mixed) by (constructor; intros; reflexivity).
  split; [exact Hwf | ].
  destruct (init_ok mixed Hwf) as (s0 & _ & _ & _ & Hs & _).
  assert (Hr : reachable mixed s0) by (apply reach_init; exact Hs).
  destruct (X11_nan_iff_nan_value mixed s0 [Fin 1; NaN] Hwf Hr eq_refl)
    as (v & Hv & Hn).
  exists s0, v. split; [exact Hs | ]. split; [exact Hv | exact Hn].
Defined.

(** ** The four groups, and the normalization *)

Lemma masks_exactly_one (ls es : list bool) (i : nat) :
  length ls = length es -> (i < length ls)%nat ->
  (Nat.b2n (nth i (mask_l_eq ls es) false)
   + Nat.b2n (nth i (mask_l_ineq ls es) false)
   + Nat.b2n (nth i (mask_nl_eq ls es) false)
   + Nat.b2n (nth i (mask_nl_ineq ls es) false) = 1)%nat.
Proof.
  unfold mask_nl_ineq, mask_nl_eq, mask_l_ineq, mask_l_eq, logical_not.
  revert es i.
  induction ls as [ | l ls IH]; intros [ | e es] i Hlen Hi; simpl in *;
    try lia.
  destruct i as [ | i].
  - destruct l, e; reflexivity.
  - apply IH; lia.
Qed.

(** X12.  The four masks of [ctr_violations] are computed without error
    and split the constraints: every constraint belongs to exactly one of
    linear equality, linear inequality, nonlinear equality and nonlinear
    inequality. *)
Theorem X12_masks_partition (p : CUTEstProblem) :
  length (is_linear_cons p) = raw_m p -> length (is_eq_cons p) = raw_m p ->
  let ls := is_linear_cons p in
  let es := is_eq_cons p in
  logical_and ls es = Ok (mask_l_eq ls es)
  /\ logical_and (logical_not (mask_l_eq ls es)) ls = Ok (mask_l_ineq ls es)
  /\ logical_and (logical_not ls) es = Ok (mask_nl_eq ls es)
  /\ logical_and (logical_not (mask_nl_eq ls es)) (logical_not ls)
     = Ok (mask_nl_ineq ls es)
  /\ forall i : nat, (i < raw_m p)%nat ->
       (Nat.b2n (nth i (mask_l_eq ls es) false)
        + Nat.b2n (nth i (mask_l_ineq ls es) false)
        + Nat.b2n (nth i (mask_nl_eq ls es) false)
        + Nat.b2n (nth i (mask_nl_ineq ls es) false) = 1)%nat.
Proof.
  intros Hl He ls es. fold ls in Hl. fold es in He.
  unfold mask_nl_ineq, mask_nl_eq, mask_l_ineq, mask_l_eq.
  repeat split; try (apply logical_and_ok; lens).
  intros i Hi. apply masks_exactly_one; lia.
Qed.

Lemma X12_masks_partition_witness :
  length (is_linear_cons mixed) = raw_m mixed
  /\ length (is_eq_cons mixed) = raw_m mixed
  /\ mask_l_eq (is_linear_cons mixed) (is_eq_cons mixed) = [false; false]
  /\ mask_l_ineq (is_linear_cons mixed) (is_eq_cons mixed) = [true; false]
  /\ mask_nl_eq (is_linear_cons mixed) (is_eq_cons mixed) = [false; true]
  /\ mask_nl_ineq (is_linear_cons mixed) (is_eq_cons mixed) = [false; false]
  /\ logical_and (is_linear_cons mixed) (is_eq_cons mixed)
     = Ok (mask_l_eq (is_linear_cons mixed) (is_eq_cons mixed)).
Proof.
  split; [reflexivity | ]. split; [reflexivity | ].
  split; [reflexivity | ]. split; [reflexivity | ].
  split; [reflexivity | ]. split; [reflexivity | ].
  exact (proj1 (X12_masks_partition mixed eq_refl eq_refl)).
Defined.

Lemma maximum_le (a c b : float) :
  fle a b = true -> fle c b = true -> fle (maximum a c) b = true.
Proof.
  intros Ha Hc. unfold maximum. destruct (isnan a || fge a c); assumption.
Qed.

Lemma fold_maximum_le (l : list float) (i b : float) :
  fle i b = true -> Forall (fun c => fle c b = true) l ->
  fle (fold_left maximum l i) b = true.
Proof.
  intros Hi Hl. revert i Hi.
  induction Hl as [ | v l Hv _ IH]; intros i Hi; simpl; auto.
  apply IH. now apply maximum_le.
Qed.

Lemma normalizer_one (ubs : list float) :
  Forall (fun b => fle (fabs b) (Fin 1) = true) ubs ->
  normalizer ubs = Fin 1.
Proof.
  intros H. unfold normalizer. apply maximum_absorb.
  unfold max_floor0. apply fold_maximum_le; [reflexivity | ].
  now apply Forall_map.
Qed.

Lemma fsame_fdiv_one (a : float) : fsame (fdiv a (Fin 1)) a = true.
Proof.
  unfold fsame, feq. destruct a as [ | | x | ]; try reflexivity.
  simpl. apply andb_true_iff.
  assert (E : x / 1 == x) by (field).
  split; qbool; rewrite E; lra.
Qed.

Lemma fsame_maximum_l (a a' c : float) :
  fsame a a' = true -> fsame (maximum a c) (maximum a' c) = true.
Proof.
  unfold fsame, feq, maximum, fge.
  destruct a as [ | | x | ], a' as [ | | x' | ], c as [ | | z | ];
    simpl; try reflexivity; try discriminate; intros H;
    try (apply andb_true_iff in H as [H1 H2]);
    qsplit; qbool; try lra;
    try (apply andb_true_iff; split; qbool; lra).
Qed.

(** X13.  When every upper bound of the linear group has magnitude at most
    1 (in particular when there is no linear constraint), the normalization
    has no effect: the two measures are the same value. *)
Theorem X13_normalization_neutral (p : CUTEstProblem) (self : PCTProblem)
  (c0 : Constraint) (vs : list float) :
  wf_problem p -> reachable p self -> length vs = raw_m p ->
  constraints_0 self = Ok c0 ->
  Forall (fun b => fle (fabs b) (Fin 1) = true) (ub c0) ->
  exists vn vu : float,
    ctr_violations self vs true = Ok vn
    /\ ctr_violations self vs false = Ok vu
    /\ fsame vn vu = true.
Proof.
  intros Hwf Hr Hv H0 Hub.
  destruct (reachable_frame p self Hwf Hr) as (Hp & _).
  pose proof (wf_linear p Hwf) as Hl. pose proof (wf_eq p Hwf) as He.
  subst p.
  rewrite (ctr_violations_value self c0 vs true) by (try exact H0; lia).
  rewrite (ctr_violations_value self c0 vs false) by (try exact H0; lia).
  do 2 eexists. split; [reflexivity | ]. split; [reflexivity | ].
  unfold violation_spec, fold_nonlinear.
  rewrite (normalizer_one _ Hub).
  do 2 apply fsame_maximum_l. apply fsame_fdiv_one.
Qed.

Lemma X13_normalization_neutral_witness :
  wf_problem sample /\ reachable sample sample_self
  /\ length [Fin 3] = raw_m sample
  /\ constraints_0 sample_self
     = Ok (LinearConstraint [[Fin 1; Fin 1]] [Fin 1] [Fin 1])
  /\ Forall (fun b => fle (fabs b) (Fin 1) = true)
       (ub (LinearConstraint [[Fin 1; Fin 1]] [Fin 1] [Fin 1]))
  /\ exists vn vu : float,
       ctr_violations sample_self [Fin 3] true = Ok vn
       /\ ctr_violations sample_self [Fin 3] false = Ok vu
       /\ fsame vn vu = true.
Proof.
  assert (Hwf : wf_problem sample) by (constructor; intros; reflexivity).
  assert (Hr : reachable sample sample_self)
    by (apply reach_init; reflexivity).
  assert (Hub : Forall (fun b => fle (fabs b) (Fin 1) = true)
                  (ub (LinearConstraint [[Fin 1; Fin 1]] [Fin 1] [Fin 1])))
    by (simpl; repeat constructor).
  split; [exact Hwf | ]. split; [exact Hr | ]. split; [reflexivity | ].
  split; [reflexivity | ]. split; [exact Hub | ].
  exact (X13_normalization_neutral sample sample_self _ [Fin 3] Hwf Hr
           eq_refl eq_refl Hub).
Defined.

(** * Properties of [wrapper.py] *)

(** ** The pattern of the decoder output *)

Lemma span_while_spec (f : ascii -> bool) (s : string) :
  s = String.append (fst (span_while f s)) (snd (span_while f s))
  /\ all_chars f (fst (span_while f s)) = true
  /\ stops f (snd (span_while f s)) = true.
Proof.
  induction s as [ | c s (IH1 & IH2 & IH3)]; simpl.
  - auto.
  - destruct (f c) eqn:E; simpl.
    + rewrite E, IH2. repeat split; auto. now rewrite <- IH1.
    + rewrite E. auto.
Qed.

Lemma span_while_unique (f : ascii -> bool) (a b : string) :
  all_chars f a = true -> stops f b = true ->
  span_while f (String.append a b) = (a, b).
Proof.
  intros Ha Hb. induction a as [ | c a IH]; simpl in *.
  - destruct b as [ | c b]; [reflexivity | ]. simpl in *.
    apply negb_true_iff in Hb. now rewrite Hb.
  - apply andb_true_iff in Ha as [Hc Ha]. rewrite Hc, (IH Ha). reflexivity.
Qed.

(** X14.  A line matches the pattern exactly when it is one or more
    capital letters, an equal sign, one or more digits and a rest that
    does not begin with a digit; the groups are the letters and the
    digits.  So a value may be followed by anything, and a line with a
    lower-case key, a sign or no digit does not match. *)
Theorem X14_sif_pattern (line param value : string) :
  sif_pattern_match line = Some (param, value)
  <-> param <> EmptyString /\ all_chars is_upper param = true
      /\ value <> EmptyString /\ all_chars is_digit value = true
      /\ exists rest : string,
           stops is_digit rest = true
           /\ line = String.append param
                       (String equal_sign (String.append value rest)).
Proof.
  unfold sif_pattern_match. split.
  - destruct (span_while_spec is_upper line) as (E1 & U1 & S1).
    destruct (span_while is_upper line) as [k r]. simpl in *.
    destruct k as [ | k0 k]; [discriminate | ].
    destruct r as [ | c r]; [discriminate | ].
    destruct (Ascii.eqb c equal_sign) eqn:Ec; [ | discriminate].
    apply Ascii.eqb_eq in Ec. subst c.
    destruct (span_while_spec is_digit r) as (E2 & U2 & S2).
    destruct (span_while is_digit r) as [v r']. simpl in *.
    destruct v as [ | v0 v]; [discriminate | ].
    intros H. injection H as <- <-.
    split; [discriminate | ]. split; [exact U1 | ].
    split; [discriminate | ]. split; [exact U2 | ].
    exists r'. split; [exact S2 | ]. simpl in *. congruence.
  - intros (Hk & Uk & Hv & Uv & rest & Sr & ->).
    rewrite (span_while_unique is_upper param
               (String equal_sign (String.append value rest)) Uk eq_refl).
    destruct param as [ | k0 k]; [contradiction | ].
    rewrite Ascii.eqb_refl.
    rewrite (span_while_unique is_digit value rest Uv Sr).
    destruct value as [ | v0 v]; [contradiction | reflexivity].
Qed.

Lemma X14_sif_pattern_witness :
  sif_pattern_match "N=100;more" = Some ("N", "100")%string
  /\ sif_pattern_match "n=100" = None
  /\ sif_pattern_match "N=-5" = None
  /\ sif_pattern_match " N=5" = None.
Proof.
  split; [ | repeat split; reflexivity].
  apply (proj2 (X14_sif_pattern "N=100;more" "N" "100")).
  split; [discriminate | ]. split; [reflexivity | ].
  split; [discriminate | ]. split; [reflexivity | ].
  exists ";more"%string. split; reflexivity.
Defined.

(** ** The values of a SIF parameter *)

Lemma insert_sorted_in (a x : N) (l : list N) :
  In x (insert_sorted a l) <-> x = a \/ In x l.
Proof.
  induction l as [ | b l IH]; simpl.
  - intuition.
  - destruct (a <=? b)%N; simpl; rewrite ?IH; intuition.
Qed.


Lemma insert_sorted_sorted (a : N) (l : list N) :
  StronglySorted N.le l -> StronglySorted N.le (insert_sorted a l).
Proof.
  induction 1 as [ | b l Hs IH Hb]; simpl.
  - repeat constructor.
  - destruct (a <=? b)%N eqn:E.
    + apply N.leb_le in E. constructor; [now constructor | ].
      constructor; [exact E | ].
      eapply Forall_impl; [ | exact Hb]. intros c Hc. cbn beta in Hc. lia.
    + apply N.leb_gt in E. constructor; [exact IH | ].
      apply Forall_forall. intros c Hc. apply insert_sorted_in in Hc.
      destruct Hc as [-> | Hc]; [lia | ].
      rewrite Forall_forall in Hb. now apply Hb.
Qed.

Lemma np_sort_sorted (l : list N) : StronglySorted N.le (np_sort l).
Proof.
  induction l as [ | a l IH]; simpl; [constructor | ].
  now apply insert_sorted_sorted.
Qed.

Lemma sif_values_in (sif_stdout parameter : string) (v : N) :
  In v (sif_values sif_stdout parameter)
  <-> exists line value : string,
        In line (split_lines sif_stdout)
        /\ sif_pattern_match line = Some (parameter, value)
        /\ v = int value.
Proof.
  unfold sif_values. rewrite in_flat_map. split.
  - intros (line & Hin & Hv).
    destruct (sif_pattern_match line) as [[k value] | ] eqn:Hm;
      [ | contradiction].
    destruct (String.eqb k parameter) eqn:E; [ | contradiction].
    apply String.eqb_eq in E. subst k.
    destruct Hv as [<- | []]. exists line, value. repeat split; auto.
  - intros (line & value & Hin & Hm & ->).
    exists line. split; [exact Hin | ].
    rewrite Hm, String.eqb_refl. now left.
Qed.


(** X16.  For a parameter name that is empty or has a character other than
    a capital letter, [get_sif_params] returns nothing, whatever the
    decoder printed. *)
Theorem X16_sif_params_bad_name (sif_stdout parameter : string) :
  parameter = EmptyString \/ all_chars is_upper parameter = false ->
  get_sif_params sif_stdout parameter = [].
Proof.
  intros Hbad. unfold get_sif_params.
  assert (E : sif_values sif_stdout parameter = []).
  { destruct (sif_values sif_stdout parameter) as [ | v l] eqn:Ev;
      [reflexivity | exfalso].
    assert (Hin : In v (sif_values sif_stdout parameter))
      by (rewrite Ev; now left).
    apply sif_values_in in Hin. destruct Hin as (line & value & _ & Hm & _).
    unfold sif_pattern_match in Hm.
    destruct (span_while_spec is_upper line) as (_ & U1 & _).
    destruct (span_while is_upper line) as [k r]. simpl in U1.
    destruct k as [ | k0 k]; [discriminate | ].
    destruct r as [ | c r]; [discriminate | ].
    destruct (Ascii.eqb c equal_sign); [ | discriminate].
    destruct (span_while is_digit r) as [[ | v0 v'] r']; [discriminate | ].
    injection Hm as <- _. destruct Hbad as [Hb | Hb]; [discriminate | ].
    rewrite U1 in Hb. discriminate. }
  rewrite E. reflexivity.
Qed.

Lemma X16_sif_params_bad_name_witness :
  ("n"%string = EmptyString \/ all_chars is_upper "n" = false)
  /\ get_sif_params "n=10" "n" = [].
Proof.
  assert (Hbad : "n"%string = EmptyString
                 \/ all_chars is_upper "n" = false) by (right; reflexivity).
  split; [exact Hbad | ].
  exact (X16_sif_params_bad_name "n=10" "n" Hbad).
Defined.

(** ** The dimension of a problem of variable dimension *)

Lemma np_max_int_upper (l : list N) (x : N) :
  In x l -> (x <= np_max_int l)%N.
Proof.
  induction l as [ | a l IH]; simpl; [contradiction | ].
  intros [-> | H]; [lia | ]. specialize (IH H). lia.
Qed.

Lemma np_max_int_in (l : list N) : l <> [] -> In (np_max_int l) l.
Proof.
  induction l as [ | a l IH]; [congruence | ]. intros _. simpl.
  destruct l as [ | b l].
  - left. simpl. lia.
  - destruct (N.max_spec a (np_max_int (b :: l))) as [[_ E] | [_ E]];
      rewrite E.
    + right. apply IH. discriminate.
    + now left.
Qed.

Lemma choose_dimension_some (dims : list N) (n_max : Z) (d : N) :
  StronglySorted N.le dims ->
  choose_dimension dims n_max = Some d
  <-> In d dims /\ (Z.of_N d <= n_max)%Z
      /\ forall d' : N, In d' dims -> (Z.of_N d' <= n_max)%Z -> (d' <= d)%N.
Proof.
  intros Hs. unfold choose_dimension.
  set (ok := fun d0 : N => (Z.of_N d0 <=? n_max)%Z).
  assert (Hmax : forall d0 : N, In d0 dims -> ok d0 = true ->
            let m := np_max_int (filter ok dims) in
            In m dims /\ (Z.of_N m <= n_max)%Z
            /\ forall d', In d' dims -> (Z.of_N d' <= n_max)%Z ->
                          (d' <= m)%N).
  { intros d0 Hin Hok m.
    assert (Hne : filter ok dims <> []).
    { intros E. assert (In d0 (filter ok dims))
        by (apply filter_In; auto). rewrite E in H. contradiction. }
    pose proof (np_max_int_in _ Hne) as Hm. apply filter_In in Hm.
    destruct Hm as [Hm1 Hm2]. split; [exact Hm1 | ].
    split; [now apply Z.leb_le | ].
    intros d' Hd' Hle. apply np_max_int_upper, filter_In.
    split; [exact Hd' | now apply Z.leb_le]. }
  destruct dims as [ | d0 dims'].
  - split; [discriminate | intros ([] & _)].
  - fold (ok d0). destruct (ok d0) eqn:E0.
    + destruct (Hmax d0 (or_introl eq_refl) E0) as (M1 & M2 & M3).
      split.
      * intros H. injection H as <-. auto.
      * intros (Hin & Hle & Hbig). f_equal. apply N.le_antisymm.
        -- apply Hbig; assumption.
        -- apply M3; assumption.
    + split; [discriminate | ].
      intros (Hin & Hle & _). exfalso.
      apply Z.leb_gt in E0. inversion Hs as [ | ? ? _ Hall]; subst.
      destruct Hin as [<- | Hin]; [lia | ].
      rewrite Forall_forall in Hall. specialize (Hall d Hin). lia.
Qed.

Lemma choose_dimension_none (dims : list N) (n_max : Z) :
  StronglySorted N.le dims ->
  choose_dimension dims n_max = None
  <-> forall d : N, In d dims -> (n_max < Z.of_N d)%Z.
Proof.
  intros Hs. unfold choose_dimension. destruct dims as [ | d0 dims'].
  - split; [intros _ d [] | reflexivity].
  - destruct (Z.of_N d0 <=? n_max)%Z eqn:E0.
    + split; [discriminate | ]. intros H. apply Z.leb_le in E0.
      specialize (H d0 (or_introl eq_refl)). lia.
    + split; [ | reflexivity]. intros _ d Hin.
      apply Z.leb_gt in E0. inversion Hs as [ | ? ? _ Hall]; subst.
      destruct Hin as [<- | Hin]; [lia | ].
      rewrite Forall_forall in Hall. specialize (Hall d Hin). lia.
Qed.

(** X17.  From the values that [get_sif_params] returns, the dimension
    chosen for a problem of variable dimension is the largest one that is
    at most [n_max]; no dimension is chosen exactly when every value
    exceeds [n_max] (or there is none). *)
Theorem X17_largest_dimension (sif_stdout parameter : string) (n_max : Z) :
  let dims := get_sif_params sif_stdout parameter in
  (forall d : N,
     choose_dimension dims n_max = Some d
     <-> In d dims /\ (Z.of_N d <= n_max)%Z
         /\ forall d' : N,
              In d' dims -> (Z.of_N d' <= n_max)%Z -> (d' <= d)%N)
  /\ (choose_dimension dims n_max = None
      <-> forall d : N, In d dims -> (n_max < Z.of_N d)%Z).
Proof.
  intros dims. split.
  - intros d. apply choose_dimension_some, np_sort_sorted.
  - apply choose_dimension_none, np_sort_sorted.
Qed.

(** ** Importing problems *)

Lemma init_problem (p : CUTEstProblem) (self : PCTProblem) :
  init p = Ok self -> problem self = p.
Proof.
  unfold init. destruct (get_constraints p); cbn [bind]; [ | discriminate].
  intros H. injection H as <-. reflexivity.
Qed.

Lemma try_load_some (env : PyCUTEst) (n_max : Z) (sle : bool)
  (prob : string) (self : PCTProblem) :
  try_load env n_max sle prob = Return (Some self) ->
  load_problem env n_max sle prob = Return (Some self).
Proof.
  unfold try_load.
  destruct (load_problem env n_max sle prob) as [r | []]; congruence.
Qed.

(** What a successful load went through. *)
Lemma load_problem_some (env : PyCUTEst) (n_max : Z) (sle : bool)
  (prob : string) (self : PCTProblem) :
  load_problem env n_max sle prob = Return (Some self) ->
  exists (n_prob : option Z) (d : option N),
    problem_n env prob = Return n_prob
    /\ import_problem env prob d = Return (problem self)
    /\ init (problem self) = Ok self
    /\ (sle = true ->
        any (mask_l_eq (is_linear_cons (problem self))
               (is_eq_cons (problem self))) = true)
    /\ match n_prob with
       | None =>
           choose_dimension
             (get_sif_params (sifdecode_show env prob) "N") n_max = d
           /\ d <> None
           /\ (Z.of_nat (raw_n (problem self)) <= n_max)%Z
       | Some _ => d = None
       end.
Proof.
  unfold load_problem.
  destruct (problem_n env prob) as [n_prob | e]; cbn [and_then];
    [ | discriminate].
  assert (Tail : forall py_prob : CUTEstProblem,
    (rejected <--
       (if sle
        then l_eq <-- lift (logical_and (is_linear_cons py_prob)
                              (is_eq_cons py_prob)) ;;;
             Return (negb (any l_eq))
        else Return false) ;;;
     if rejected then Return None
     else self0 <-- lift (init py_prob) ;;; Return (Some self0))
    = Return (Some self) ->
    py_prob = problem self /\ init (problem self) = Ok self
    /\ (sle = true ->
        any (mask_l_eq (is_linear_cons (problem self))
               (is_eq_cons (problem self))) = true)).
  { intros py H.
    assert (Hinit : forall b : bool,
              (if b then Return None
               else self0 <-- lift (init py) ;;; Return (Some self0))
              = Return (Some self) ->
              b = false /\ init py = Ok self).
    { intros [ | ]; [discriminate | ].
      destruct (init py) as [s | e]; cbn [lift and_then]; [ | discriminate].
      intros E. injection E as <-. auto. }
    destruct sle.
    - unfold logical_and in H.
      destruct (length (is_linear_cons py) =? length (is_eq_cons py))%nat;
        cbn [lift and_then] in H; [ | discriminate].
      destruct (Hinit _ H) as [Hb Hi]. apply negb_false_iff in Hb.
      pose proof (init_problem py self Hi) as <-. auto.
    - cbn [and_then] in H. destruct (Hinit false H) as [_ Hi].
      pose proof (init_problem py self Hi) as <-.
      split; [reflexivity | ]. split; [exact Hi | discriminate]. }
  destruct n_prob as [nz | ].
  - destruct (import_problem env prob None) as [py | e] eqn:Ei;
      cbn [and_then]; [ | discriminate].
    intros H. destruct (Tail py H) as (-> & Hi & Hle).
    exists (Some nz), None. auto.
  - cbv zeta.
    destruct (choose_dimension _ n_max) as [d | ] eqn:Ed;
      cbn [and_then]; [ | discriminate].
    destruct (import_problem env prob (Some d)) as [py | e] eqn:Ei;
      cbn [and_then]; [ | discriminate].
    destruct (n_max <? Z.of_nat (raw_n py))%Z eqn:En; cbn [and_then];
      [discriminate | ].
    intros H. destruct (Tail py H) as (-> & Hi & Hle).
    exists None, (Some d). apply Z.ltb_ge in En.
    repeat split; auto. discriminate.
Qed.

(** X18.  A problem of variable dimension is loaded only with the chosen
    dimension passed as the SIF parameter N, and only if the dimension of
    the problem that the provider returns is at most [n_max]. *)
Theorem X18_variable_dimension (env : PyCUTEst) (n_max : Z) (sle : bool)
  (prob : string) (self : PCTProblem) :
  problem_n env prob = Return None ->
  try_load env n_max sle prob = Return (Some self) ->
  exists d : N,
    choose_dimension (get_sif_params (sifdecode_show env prob) "N") n_max
    = Some d
    /\ import_problem env prob (Some d) = Return (problem self)
    /\ (Z.of_nat (raw_n (problem self)) <= n_max)%Z
    /\ init (problem self) = Ok self.
Proof.
  intros Hn Ht. apply try_load_some in Ht.
  destruct (load_problem_some _ _ _ _ _ Ht)
    as (n_prob & d & Hn' & Hi & Hinit & _ & Hd).
  rewrite Hn in Hn'. injection Hn' as <-.
  destruct Hd as (Hc & Hne & Hle).
  destruct d as [d | ]; [ | contradiction]. exists d. auto.
Qed.

Lemma X18_variable_dimension_witness :
  problem_n sample_env "MIXED" = Return None
  /\ exists self : PCTProblem,
       try_load sample_env 500 false "MIXED" = Return (Some self)
       /\ choose_dimension
            (get_sif_params (sifdecode_show sample_env "MIXED") "N") 500
          = Some 10%N
       /\ import_problem sample_env "MIXED" (Some 10%N)
          = Return (problem self)
       /\ (Z.of_nat (raw_n (problem self)) <= 500)%Z.
Proof.
  assert (Hn : problem_n sample_env "MIXED" = Return None) by reflexivity.
  split; [exact Hn | ].
  destruct (try_load sample_env 500 false "MIXED") as [[self | ] | e] eqn:Ht;
    try (vm_compute in Ht; discriminate).
  exists self. split; [reflexivity | ].
  destruct (X18_variable_dimension sample_env 500 false "MIXED" self Hn Ht)
    as (d & Hd & Hi & Hle & _).
  assert (Ed : d = 10%N) by (vm_compute in Hd; congruence).
  subst d. auto.
Defined.

(** X19.  A problem of variable dimension none of whose available
    dimensions is at most [n_max] is skipped: the body of the [try]
    statement raises [RuntimeError], and the handler turns it into a skip,
    so that no exception leaves the iteration. *)
Theorem X19_no_dimension_skipped (env : PyCUTEst) (n_max : Z) (sle : bool)
  (prob : string) :
  problem_n env prob = Return None ->
  (forall d : N,
     In d (get_sif_params (sifdecode_show env prob) "N") ->
     (n_max < Z.of_N d)%Z) ->
  load_problem env n_max sle prob = Throw RuntimeError
  /\ try_load env n_max sle prob = Return None.
Proof.
  intros Hn Hall.
  assert (Hc : choose_dimension
                 (get_sif_params (sifdecode_show env prob) "N") n_max
               = None).
  { apply choose_dimension_none; [apply np_sort_sorted | exact Hall]. }
  unfold try_load, load_problem. rewrite Hn. cbn [and_then]. cbv zeta.
  rewrite Hc. split; reflexivity.
Qed.

Lemma X19_no_dimension_skipped_witness :
  problem_n sample_env "MIXED" = Return None
  /\ (forall d : N,
        In d (get_sif_params (sifdecode_show sample_env "MIXED") "N") ->
        (1 < Z.of_N d)%Z)
  /\ load_problem sample_env 1 true "MIXED" = Throw RuntimeError
  /\ try_load sample_env 1 true "MIXED" = Return None.
Proof.
  assert (Hn : problem_n sample_env "MIXED" = Return None) by reflexivity.
  assert (Hall : forall d : N,
            In d (get_sif_params (sifdecode_show sample_env "MIXED") "N") ->
            (1 < Z.of_N d)%Z).
  { intros d Hd. vm_compute in Hd.
    destruct Hd as [<- | [<- | [<- | []]]]; reflexivity. }
  split; [exact Hn | ]. split; [exact Hall | ].
  exact (X19_no_dimension_skipped sample_env 1 true "MIXED" Hn Hall).
Defined.

Lemma insert_name_in (a x : string) (l : list string) :
  In x (insert_name a l) <-> x = a \/ In x l.
Proof.
  induction l as [ | b l IH]; simpl.
  - intuition.
  - destruct (String.leb a b); simpl; rewrite ?IH; intuition.
Qed.

Lemma sorted_in (x : string) (l : list string) : In x (sorted l) <-> In x l.
Proof.
  induction l as [ | a l IH]; simpl; [tauto | ].
  rewrite insert_name_in, IH. intuition.
Qed.

Lemma length_insert_name (a : string) (l : list string) :
  length (insert_name a l) = S (length l).
Proof.
  induction l as [ | b l IH]; simpl; [reflexivity | ].
  destruct (String.leb a b); simpl; now rewrite ?IH.
Qed.

Lemma length_sorted (l : list string) : length (sorted l) = length l.
Proof.
  induction l as [ | a l IH]; simpl; [reflexivity | ].
  now rewrite length_insert_name, IH.
Qed.

Lemma import_loop_invariant (env : PyCUTEst) (n_max : Z) (sle : bool)
  (P : PCTProblem -> Prop) (names : list string) :
  (forall prob self,
     In prob names ->
     try_load env n_max sle prob = Return (Some self) -> P self) ->
  forall acc probs : list PCTProblem,
    import_loop env n_max sle names acc = Return probs ->
    Forall P acc ->
    Forall P probs /\ (length probs <= length acc + length names)%nat.
Proof.
  induction names as [ | prob rest IH]; intros HP acc probs; simpl.
  - intros H Hacc. injection H as <-. split; [exact Hacc | lia].
  - destruct (try_load env n_max sle prob) as [loaded | e] eqn:Et;
      cbn [and_then]; [ | discriminate].
    intros H Hacc.
    assert (HP' : forall prob0 self,
              In prob0 rest ->
              try_load env n_max sle prob0 = Return (Some self) -> P self)
      by (intros; eapply HP; [right | ]; eauto).
    destruct loaded as [self | ].
    + destruct (IH HP' _ _ H) as [H1 H2].
      { apply Forall_app. split; [exact Hacc | ].
        constructor; [ | constructor]. eapply HP; [left | ]; eauto. }
      rewrite length_app in H2. simpl in H2. split; [exact H1 | lia].
    + destruct (IH HP' _ _ H Hacc) as [H1 H2]. split; [exact H1 | lia].
Qed.

(** X20.  When [import_problems] returns, the catalog has at most one
    entry per requested name, and each entry is the freshly constructed
    wrapper (empty histories) of a problem that the provider returned for
    one of the requested names; if a linear equality constraint was asked
    for, each of these problems has one. *)
Theorem X20_catalog_entries (env : PyCUTEst) (n_max : Z)
  (cutest : cutest_arg) (sle : bool) (problems : list PCTProblem) :
  import_problems env n_max cutest sle = Return problems ->
  (length problems <= length (problem_names env n_max cutest))%nat
  /\ Forall
       (fun self =>
          init (problem self) = Ok self
          /\ objectives self = [] /\ residuals self = []
          /\ (exists (prob : string) (d : option N),
                In prob (problem_names env n_max cutest)
                /\ import_problem env prob d = Return (problem self))
          /\ (sle = true ->
              exists i : nat,
                nth_error (is_linear_cons (problem self)) i = Some true
                /\ nth_error (is_eq_cons (problem self)) i = Some true))
       problems.
Proof.
  unfold import_problems. intros H.
  set (names := problem_names env n_max cutest) in *.
  destruct (import_loop_invariant env n_max sle
              (fun self =>
                 init (problem self) = Ok self
                 /\ objectives self = [] /\ residuals self = []
                 /\ (exists (prob : string) (d : option N),
                       In prob names
                       /\ import_problem env prob d
                          = Return (problem self))
                 /\ (sle = true ->
                     exists i : nat,
                       nth_error (is_linear_cons (problem self)) i
                       = Some true
                       /\ nth_error (is_eq_cons (problem self)) i
                          = Some true))
              (sorted names)) with (acc := @nil PCTProblem)
                                   (probs := problems) as [H1 H2].
  - intros prob self Hin Ht. apply try_load_some in Ht.
    destruct (load_problem_some _ _ _ _ _ Ht)
      as (n_prob & d & _ & Hi & Hinit & Hle & _).
    split; [exact Hinit | ].
    assert (Hempty : objectives self = [] /\ residuals self = []).
    { revert Hinit. unfold init.
      destruct (get_constraints (problem self)); cbn [bind];
        [ | discriminate].
      intros E. injection E as E. rewrite <- E. split; reflexivity. }
    destruct Hempty as [Ho Hr]. split; [exact Ho | ]. split; [exact Hr | ].
    split.
    + exists prob, d. split; [now apply sorted_in | exact Hi].
    + intros Hs. specialize (Hle Hs). unfold mask_l_eq in Hle.
      revert Hle. generalize (is_linear_cons (problem self)) as ls.
      generalize (is_eq_cons (problem self)) as es. clear.
      intros es ls. revert es.
      induction ls as [ | l ls IH]; intros [ | e es]; simpl;
        try discriminate.
      destruct l, e; simpl; try (intros H; destruct (IH es H) as (i & Hi);
                                 exists (S i); exact Hi).
      intros _. exists 0%nat. split; reflexivity.
  - exact H.
  - constructor.
  - rewrite length_sorted in H2. simpl in H2. split; [exact H2 | exact H1].
Qed.

Lemma X20_catalog_entries_witness :
  exists problems : list PCTProblem,
    import_problems sample_env 500 (FromList ["SAMPLE"; "MIXED"; "OTHER"]%string)
      true = Return problems
    /\ get_problem_names problems = ["SAMPLE"%string]
    /\ (length problems
        <= length (problem_names sample_env 500
                     (FromList ["SAMPLE"; "MIXED"; "OTHER"]%string)))%nat.
Proof.
  destruct (import_problems sample_env 500
              (FromList ["SAMPLE"; "MIXED"; "OTHER"]%string) true)
    as [problems | e] eqn:H; [ | vm_compute in H; discriminate].
  exists problems. split; [reflexivity | ].
  pose proof (X20_catalog_entries sample_env 500
                (FromList ["SAMPLE"; "MIXED"; "OTHER"]%string) true problems H)
    as [Hlen _].
  split; [ | exact Hlen].
  vm_compute in H. injection H as <-. reflexivity.
Defined.




(** ** Saving the names and reading them back *)

Lemma all_chars_append (f : ascii -> bool) (a b : string) :
  all_chars f (String.append a b) = all_chars f a && all_chars f b.
Proof.
  induction a as [ | c a IH]; simpl; [reflexivity | ].
  now rewrite IH, andb_assoc.
Qed.

Lemma universal_newlines_id (s : string) :
  all_chars (is_not carriage_return) s = true -> universal_newlines s = s.
Proof.
  induction s as [ | c s IH]; simpl; [reflexivity | ].
  unfold is_not at 1. intros H. apply andb_true_iff in H as [Hc Hs].
  apply negb_true_iff in Hc. rewrite Hc, (IH Hs). reflexivity.
Qed.

Lemma readlines_line (a rest : string) :
  all_chars (is_not newline) a = true ->
  readlines (String.append a (String newline rest))
  = String.append a (String newline EmptyString) :: readlines rest.
Proof.
  induction a as [ | c a IH]; simpl.
  - intros _. rewrite ?Ascii.eqb_refl. reflexivity.
  - unfold is_not at 1. intros H. apply andb_true_iff in H as [Hc Ha].
    apply negb_true_iff in Hc. rewrite Hc, (IH Ha). reflexivity.
Qed.

Lemma readlines_last (a : string) :
  all_chars (is_not newline) a = true -> a <> EmptyString ->
  readlines a = [a].
Proof.
  induction a as [ | c a IH]; simpl; [congruence | ].
  unfold is_not at 1. intros H _. apply andb_true_iff in H as [Hc Ha].
  apply negb_true_iff in Hc. rewrite Hc.
  destruct a as [ | c' a']; [reflexivity | ].
  rewrite (IH Ha) by discriminate. reflexivity.
Qed.

Lemma rstrip_plain (c : ascii) (a : string) :
  all_chars (is_not c) a = true -> rstrip c a = a.
Proof.
  induction a as [ | x a IH]; simpl; [reflexivity | ].
  unfold is_not at 1. intros H. apply andb_true_iff in H as [Hx Ha].
  apply negb_true_iff in Hx. rewrite (IH Ha), Hx.
  destruct a; reflexivity.
Qed.

Lemma rstrip_line (c : ascii) (a : string) :
  all_chars (is_not c) a = true ->
  rstrip c (String.append a (String c EmptyString)) = a.
Proof.
  induction a as [ | x a IH]; simpl.
  - intros _. rewrite ?Ascii.eqb_refl. reflexivity.
  - unfold is_not at 1. intros H. apply andb_true_iff in H as [Hx Ha].
    apply negb_true_iff in Hx. rewrite (IH Ha), Hx.
    destruct a; reflexivity.
Qed.

Lemma lstrip_plain (c : ascii) (a b : string) :
  all_chars (is_not c) a = true -> a <> EmptyString ->
  lstrip c (String.append a b) = String.append a b.
Proof.
  destruct a as [ | x a]; [congruence | ]. simpl.
  unfold is_not at 1. intros H _. apply andb_true_iff in H as [Hx _].
  apply negb_true_iff in Hx. now rewrite Hx.
Qed.

Lemma strip_plain (c : ascii) (a : string) :
  all_chars (is_not c) a = true -> strip c a = a.
Proof.
  intros H. unfold strip. destruct a as [ | x a]; [reflexivity | ].
  pose proof (lstrip_plain c (String x a) EmptyString H) as E.
  assert (Ea : forall s, String.append s EmptyString = s).
  { induction s as [ | y s IHs]; simpl; congruence. }
  rewrite Ea in E. rewrite E by discriminate. now apply rstrip_plain.
Qed.

Lemma strip_line (c : ascii) (a : string) :
  all_chars (is_not c) a = true ->
  strip c (String.append a (String c EmptyString)) = a.
Proof.
  intros H. unfold strip. destruct a as [ | x a].
  - simpl. rewrite ?Ascii.eqb_refl. reflexivity.
  - rewrite lstrip_plain by (auto; discriminate). now apply rstrip_line.
Qed.

Lemma read_back (names : list string) :
  Forall (fun nm => all_chars (is_not newline) nm = true) names ->
  last names (String newline EmptyString) <> EmptyString ->
  map (strip newline)
    (readlines (String.concat (String newline EmptyString) names))
  = names.
Proof.
  induction 1 as [ | a rest Ha Hrest IH]; [reflexivity | ].
  destruct rest as [ | b rest].
  - simpl. intros Hne. rewrite (readlines_last a Ha Hne). simpl.
    now rewrite strip_plain.
  - intros Hlast.
    change (String.concat (String newline EmptyString) (a :: b :: rest))
      with (String.append a
              (String newline
                 (String.concat (String newline EmptyString) (b :: rest)))).
    rewrite (readlines_line a _ Ha). cbn [map].
    rewrite (strip_line newline a Ha). f_equal. apply IH. exact Hlast.
Qed.

Lemma concat_no_cr (names : list string) :
  Forall (fun nm => all_chars (is_not carriage_return) nm = true) names ->
  all_chars (is_not carriage_return)
    (String.concat (String newline EmptyString) names) = true.
Proof.
  induction 1 as [ | a rest Ha Hrest IH]; [reflexivity | ].
  destruct rest as [ | b rest]; [exact Ha | ].
  change (String.concat (String newline EmptyString) (a :: b :: rest))
    with (String.append a
            (String newline
               (String.concat (String newline EmptyString) (b :: rest)))).
  rewrite all_chars_append, Ha. cbn [all_chars andb].
  rewrite IH. reflexivity.
Qed.

(** X22.  Round trip: the names that [import_problems] reads from a file
    written by [save_problems] are the saved names, in the saved order,
    provided that no name contains a newline or a carriage return and that
    the last name is not empty. *)
Theorem X22_save_read_names (env : PyCUTEst) (n_max : Z)
  (problems : list PCTProblem) :
  Forall (fun nm => all_chars (is_not newline) nm = true
                    /\ all_chars (is_not carriage_return) nm = true)
    (get_problem_names problems) ->
  last (get_problem_names problems) (String newline EmptyString)
  <> EmptyString ->
  problem_names env n_max (FromFile (save_problems problems))
  = get_problem_names problems.
Proof.
  intros Hall Hlast. unfold problem_names, save_problems.
  rewrite universal_newlines_id.
  - apply read_back; [ | exact Hlast].
    eapply Forall_impl; [ | exact Hall]. intros nm [H _]. exact H.
  - apply concat_no_cr.
    eapply Forall_impl; [ | exact Hall]. intros nm [_ H]. exact H.
Qed.

Lemma X22_save_read_names_witness :
  Forall (fun nm => all_chars (is_not newline) nm = true
                    /\ all_chars (is_not carriage_return) nm = true)
    (get_problem_names [sample_self; free_self])
  /\ last (get_problem_names [sample_self; free_self])
       (String newline EmptyString) <> EmptyString
  /\ problem_names sample_env 5
       (FromFile (save_problems [sample_self; free_self]))
     = ["SAMPLE"; "FREE"]%string.
Proof.
  assert (Hall : Forall
                   (fun nm => all_chars (is_not newline) nm = true
                              /\ all_chars (is_not carriage_return) nm
                                 = true)
                   (get_problem_names [sample_self; free_self]))
    by (repeat constructor).
  assert (Hlast : last (get_problem_names [sample_self; free_self])
                    (String newline EmptyString) <> EmptyString)
    by (simpl; discriminate).
  split; [exact Hall | ]. split; [exact Hlast | ].
  exact (X22_save_read_names sample_env 5 [sample_self; free_self]
           Hall Hlast).
Defined.
